(** * thor: the in-memory metric store of a push-and-aggregation gateway

    A shallow embedding of the Go packages [utils] (label utilities and
    metric-family utilities), [storage] (validator, merge engine, store and
    worker loop) and [handler] (the push and delete adapters).

    Conventions of the embedding.
    - A Go [string] is a sequence of bytes: [string] of the Standard Library.
    - [float64] is the kernel's binary64 float, [uint64] is a [Z] whose
      additions wrap at [2^64].
    - A Go map with string keys is a [gmap string _]; a nil map is [None].
      The order in which [range] visits a map is unspecified in Go: the
      development is parametric in it (class [GoEnv]).
    - The [dto] structs hold pointers.  Families handed to the store come
      fresh from a request body and each object is referenced from one place,
      so updates through a pointer are functional updates of the owning
      value, and a pointer kept in a lookup table is the position of the
      object in its slice.  The exception is the test run of the validator,
      after which the request is used again: there the merge is modelled
      with the objects that it shares with the request.  The payload pointers of a metric ([Counter],
      [Gauge], ...) are optional; dereferencing an absent one is a panic
      ([Panic]).  The scalar fields below them, the name and value of a
      label pair and the name and type of a family are taken as present.
    - Record fields carry a short prefix, since Go's field names are scoped
      by their struct and Rocq's are not. *)

From Stdlib Require Import ZArith Floats Ascii.
From stdpp Require Import base option list sorting gmap strings.

Local Open Scope Z_scope.
Local Open Scope string_scope.

(** ** The exposition data model ([dto]) *)

Inductive MetricType := COUNTER | GAUGE | SUMMARY | UNTYPED | HISTOGRAM.

#[global] Instance MetricType_eq_dec : EqDecision MetricType.
Proof. solve_decision. Defined.

Record LabelPair := mkLabelPair { lpName : string; lpValue : string }.

#[global] Instance LabelPair_eq_dec : EqDecision LabelPair.
Proof. solve_decision. Defined.

Record Bucket := mkBucket { bCumulativeCount : Z; bUpperBound : float }.

Record Histogram := mkHistogram {
  hSampleCount : Z;
  hSampleSum : float;
  hBucket : list Bucket
}.

Record Quantile := mkQuantile { qQuantile : float; qValue : float }.

Record Summary := mkSummary {
  sSampleCount : Z;
  sSampleSum : float;
  sQuantile : list Quantile
}.

Record Metric := mkMetric {
  mLabel : list LabelPair;
  mGauge : option float;
  mCounter : option float;
  mSummary : option Summary;
  mUntyped : option float;
  mHistogram : option Histogram;
  mTimestampMs : option Z
}.

Record MetricFamily := mkMetricFamily {
  fName : string;
  fHelp : string;
  fType : MetricType;
  fMetric : list Metric
}.

Definition setLabel (m : Metric) (l : list LabelPair) : Metric :=
  mkMetric l (mGauge m) (mCounter m) (mSummary m) (mUntyped m)
    (mHistogram m) (mTimestampMs m).

Definition setMetric (f : MetricFamily) (ms : list Metric) : MetricFamily :=
  mkMetricFamily (fName f) (fHelp f) (fType f) ms.

(** [uint64] addition. *)
Definition add64 (a b : Z) : Z := (a + b) mod 2 ^ 64.

(** The outcome of code that may dereference a nil pointer. *)
Inductive outcome (A : Type) : Type :=
| Ok (a : A)
| Panic.
Arguments Ok {A} a.
Arguments Panic {A}.

#[global] Instance outcome_bind : MBind outcome := λ A B k x,
  match x with
  | Ok a => k a
  | Panic => Panic
  end.

(** Errors of the validator and of the merge engine.  In the source they are
    [fmt.Errorf] values told apart by their text:
    ["cannot merge metric '%s': type %s != %s"],
    ["pushed metrics must not have timestamps"], and whatever the gatherer
    returns. *)
Inductive Error :=
| TypeConflict (name : string) (t1 t2 : MetricType)
| TimestampForbidden
| InconsistentOnGather (msg : string).

(** [model.InstanceLabel]; the repository's own test of [SanitizeLabels]
    expects the name ["instance"]. *)
Definition InstanceLabel : string := "instance".

(** Go compares strings bytewise; [String.le] is that order.
    [LabelPairs.Less] orders label pairs by name. *)
Definition lp_le (a b : LabelPair) : Prop := String.le (lpName a) (lpName b).

#[global] Instance lp_le_dec : RelDecision lp_le.
Proof. intros a b. unfold lp_le. apply _. Defined.

(** ** What the repository takes from outside

    [model.SeparatorByte], the [sort] package, the iteration order of [range]
    over a map, and [prometheus.Gatherers.Gather] are not code of this
    repository.  The development assumes of them only their documented
    contracts: a sort returns a sorted permutation of its input ([sort.Sort]
    is not stable, so nothing more is assumed), and [range] visits every
    entry of the map once, in some order ([rangeMap] fixes one order for
    each map; the proofs use only that it lists the entries once each).
    [Gather] stands for the error of the gatherer, [None] when it has
    none.  [model.SeparatorByte] is declared in [prometheus/common] as
    [const SeparatorByte byte = 255]; [ModelSeparatorByte] below is that
    byte. *)
Class GoEnv := {
  SeparatorByte : ascii;
  sortStrings : list string → list string;
  sortStrings_perm : ∀ l, sortStrings l ≡ₚ l;
  sortStrings_sorted : ∀ l, Sorted String.le (sortStrings l);
  sortLabelPairs : list LabelPair → list LabelPair;
  sortLabelPairs_perm : ∀ l, sortLabelPairs l ≡ₚ l;
  sortLabelPairs_sorted : ∀ l, Sorted lp_le (sortLabelPairs l);
  rangeMap : ∀ {A : Type}, gmap string A → list (string * A);
  rangeMap_perm : ∀ {A : Type} (m : gmap string A), rangeMap m ≡ₚ map_to_list m;
  Gather : list MetricFamily → option string
}.

Definition ModelSeparatorByte : ascii := "255"%char.

(** ** Label utilities ([utils]) *)

Section label_utils.
Context `{GoEnv}.

(** The separator as written by [sb.WriteByte(model.SeparatorByte)]. *)
Definition sepString : string := String SeparatorByte "".

(** The loop of [GroupingKeyFor] over the sorted [labelNames], from index
    [i] on, appending to the builder [sb].  A name that is missing from
    [labels] reads as the empty string, as a Go map lookup does. *)
Fixpoint writeLabels (labels : gmap string string) (i : nat)
    (labelNames : list string) (sb : string) : string :=
  match labelNames with
  | [] => sb
  | labelName :: rest =>
      let sb := sb +:+ labelName in
      let sb := sb +:+ sepString in
      let sb := sb +:+ default "" (labels !! labelName) in
      let sb := if bool_decide (i + 1 < size labels)%nat
                then sb +:+ sepString else sb in
      writeLabels labels (S i) rest sb
  end.

Definition GroupingKeyFor (labels : gmap string string) : string :=
  if bool_decide (size labels = 0%nat) then ""
  else
    let labelNames := sortStrings ((rangeMap labels).*1) in
    writeLabels labels 0 labelNames "".

(** [m[*label.Name] = *label.Value] for every pair, in order. *)
Definition labelMap (labels : list LabelPair) : gmap string string :=
  foldl (λ m label, <[lpName label := lpValue label]> m) ∅ labels.

Definition GroupingKeyForLabelPair (labels : list LabelPair) : string :=
  GroupingKeyFor (labelMap labels).
End label_utils.

(** *** [DecodeBase64]

    [base64.RawURLEncoding.DecodeString] belongs to Go's standard library.
    It is modelled after RFC 4648, section 5, which the source names: the
    URL- and filename-safe alphabet, no padding, line breaks skipped, a final
    group of two or three characters giving one or two bytes, a final group
    of one character or a character outside the alphabet being an error.
    On an error Go also returns the bytes decoded so far; the callers use
    them in log texts only, and the model returns [None]. *)

Definition b64Value (c : ascii) : option N :=
  let n := N_of_ascii c in
  if ((65 <=? n) && (n <=? 90))%N then Some (n - 65)%N
  else if ((97 <=? n) && (n <=? 122))%N then Some (n - 71)%N
  else if ((48 <=? n) && (n <=? 57))%N then Some (n + 4)%N
  else if (n =? 45)%N then Some 62%N
  else if (n =? 95)%N then Some 63%N
  else None.

Definition isLineBreak (c : ascii) : bool :=
  let n := N_of_ascii c in ((n =? 10) || (n =? 13))%N.

Fixpoint b64Values (cs : list ascii) : option (list N) :=
  match cs with
  | [] => Some []
  | c :: cs' =>
      if isLineBreak c then b64Values cs'
      else match b64Value c, b64Values cs' with
           | Some v, Some vs => Some (v :: vs)
           | _, _ => None
           end
  end.

Definition byteOf (n : N) : ascii := ascii_of_N (n mod 256).

Fixpoint b64Quanta (vs : list N) : option (list ascii) :=
  match vs with
  | [] => Some []
  | [_] => None
  | [a; b] => Some [byteOf (a * 4 + b / 16)]
  | [a; b; c] => Some [byteOf (a * 4 + b / 16); byteOf (b * 16 + c / 4)]
  | a :: b :: c :: d :: rest =>
      match b64Quanta rest with
      | Some bs =>
          Some (byteOf (a * 4 + b / 16) :: byteOf (b * 16 + c / 4)
                :: byteOf (c * 64 + d) :: bs)
      | None => None
      end
  end%N.

(** [strings.TrimRight(s, "=")]. *)
Fixpoint dropLeadingEq (cs : list ascii) : list ascii :=
  match cs with
  | c :: cs' => if Ascii.eqb c "="%char then dropLeadingEq cs' else cs
  | [] => []
  end.

Definition trimRightEq (cs : list ascii) : list ascii :=
  reverse (dropLeadingEq (reverse cs)).

Definition DecodeBase64 (s : string) : option string :=
  vs ← b64Values (trimRightEq (String.list_ascii_of_string s));
  bs ← b64Quanta vs;
  Some (String.string_of_list_ascii bs).

(** *** [SplitLabels] *)

Inductive SplitError :=
| OddComponents (labels : string)
| ImproperLabelName (trimmedName : string)
| InvalidBase64 (trimmedName value : string).

(** [strings.Split(s, "/")]: one more component than there are slashes. *)
Fixpoint splitSlash (s : string) : list string :=
  match s with
  | EmptyString => [""]
  | String c s' =>
      if Ascii.eqb c "/"%char then "" :: splitSlash s'
      else match splitSlash s' with
           | x :: xs => String c x :: xs
           | [] => [String c ""]
           end
  end.

(** [strings.HasPrefix] and [strings.TrimSuffix]. *)
Definition HasPrefix (s p : string) : bool := String.prefix p s.

Definition TrimSuffix (s suffix : string) : string :=
  let n := String.length s in
  let k := String.length suffix in
  if bool_decide (k ≤ n)%nat && String.eqb (String.substring (n - k) k s) suffix
  then String.substring 0 (n - k) s
  else s.

(** [model.LabelNameRE], the regular expression [^[a-zA-Z_][a-zA-Z0-9_]*$],
    and [model.ReservedLabelPrefix], two underscores. *)
Definition isLetter_ (c : ascii) : bool :=
  let n := N_of_ascii c in
  (((65 <=? n) && (n <=? 90)) || ((97 <=? n) && (n <=? 122)) || (n =? 95))%N.

Definition isDigit (c : ascii) : bool :=
  let n := N_of_ascii c in ((48 <=? n) && (n <=? 57))%N.

Definition LabelNameRE (s : string) : bool :=
  match s with
  | EmptyString => false
  | String c s' =>
      isLetter_ c
      && forallb (λ c, isLetter_ c || isDigit c) (String.list_ascii_of_string s')
  end.

Definition ReservedLabelPrefix : string := "__".

(** The loop of [SplitLabels] over the components, two at a time. *)
Fixpoint splitPairs (base64JobSuffix : string) (components : list string)
    (result : gmap string string) : SplitError + gmap string string :=
  match components with
  | name :: value :: rest =>
      let trimmedName := TrimSuffix name base64JobSuffix in
      if negb (LabelNameRE trimmedName)
         || HasPrefix trimmedName ReservedLabelPrefix
      then inl (ImproperLabelName trimmedName)
      else if String.eqb name trimmedName
      then splitPairs base64JobSuffix rest (<[name := value]> result)
      else match DecodeBase64 value with
           | None => inl (InvalidBase64 trimmedName value)
           | Some decodedValue =>
               splitPairs base64JobSuffix rest (<[trimmedName := decodedValue]> result)
           end
  | _ => inr result
  end.

Definition SplitLabels (labels base64JobSuffix : string)
    : SplitError + gmap string string :=
  if bool_decide (String.length labels ≤ 1)%nat then inr ∅
  else
    let labels := if HasPrefix labels "/"
                  then String.substring 1 (String.length labels - 1) labels
                  else labels in
    let components := splitSlash labels in
    if bool_decide (length components `mod` 2 ≠ 0)%nat
    then inl (OddComponents labels)
    else splitPairs base64JobSuffix components ∅.

(** ** Metric-family utilities ([utils]) *)

(** [proto.Clone]: a deep copy.  Values are not shared in the embedding. *)
Definition CopyMetricFamily (mf : MetricFamily) : MetricFamily := mf.

Section family_utils.
Context `{GoEnv}.

(** The loop [for _, lp := range m.GetLabel()] of [SanitizeLabels], on the
    map [gLabelsNotYetDone] and the flag [hasInstanceLabel].  It returns the
    label pairs as rewritten, the map, the flag, and whether the loop left
    through [continue metric].  After that exit the pairs behind the
    current one are not visited. *)
Fixpoint scanLabels (lps : list LabelPair) (gLabelsNotYetDone : gmap string string)
    (hasInstanceLabel : bool)
    : list LabelPair * gmap string string * bool * bool :=
  match lps with
  | [] => ([], gLabelsNotYetDone, hasInstanceLabel, false)
  | lp :: rest =>
      let ln := lpName lp in
      let '(lp, gLabelsNotYetDone) :=
        match gLabelsNotYetDone !! ln with
        | Some lv => (mkLabelPair ln lv, delete ln gLabelsNotYetDone)
        | None => (lp, gLabelsNotYetDone)
        end in
      let hasInstanceLabel :=
        if bool_decide (ln = InstanceLabel) then true else hasInstanceLabel in
      if bool_decide (size gLabelsNotYetDone = 0%nat) && hasInstanceLabel
      then (lp :: rest, gLabelsNotYetDone, hasInstanceLabel, true)
      else
        let '(rest', g, h, exited) :=
          scanLabels rest gLabelsNotYetDone hasInstanceLabel in
        (lp :: rest', g, h, exited)
  end.

(** The loop [for ln, lv := range gLabelsNotYetDone]: the entries are taken
    in the order [todo]; each is appended, noted if it is the instance
    label, and deleted from the map. *)
Fixpoint appendMissing (todo : list (string * string)) (label : list LabelPair)
    (gLabelsNotYetDone : gmap string string) (hasInstanceLabel : bool)
    : list LabelPair * gmap string string * bool :=
  match todo with
  | [] => (label, gLabelsNotYetDone, hasInstanceLabel)
  | (ln, lv) :: todo' =>
      let label := (label ++ [mkLabelPair ln lv])%list in
      let hasInstanceLabel :=
        if bool_decide (ln = InstanceLabel) then true else hasInstanceLabel in
      appendMissing todo' label (delete ln gLabelsNotYetDone) hasInstanceLabel
  end.

(** One round of the loop labelled [metric]; [gLabelsNotYetDone] is the map
    as the previous round left it. *)
Definition sanitizeMetric (groupingLabels : gmap string string)
    (gLabelsNotYetDone : gmap string string) (m : Metric)
    : Metric * gmap string string :=
  let gLabelsNotYetDone :=
    foldl (λ g '(ln, lv), <[ln := lv]> g) gLabelsNotYetDone
      (rangeMap groupingLabels) in
  let '(label, gLabelsNotYetDone, hasInstanceLabel, exited) :=
    scanLabels (mLabel m) gLabelsNotYetDone false in
  if exited then (setLabel m (sortLabelPairs label), gLabelsNotYetDone)
  else
    let '(label, gLabelsNotYetDone, hasInstanceLabel) :=
      appendMissing (rangeMap gLabelsNotYetDone) label gLabelsNotYetDone
        hasInstanceLabel in
    let label :=
      if hasInstanceLabel then label
      else (label ++ [mkLabelPair InstanceLabel ""])%list in
    (setLabel m (sortLabelPairs label), gLabelsNotYetDone).

Fixpoint sanitizeMetrics (groupingLabels : gmap string string)
    (gLabelsNotYetDone : gmap string string) (ms : list Metric) : list Metric :=
  match ms with
  | [] => []
  | m :: ms' =>
      let '(m', g) := sanitizeMetric groupingLabels gLabelsNotYetDone m in
      m' :: sanitizeMetrics groupingLabels g ms'
  end.

Definition SanitizeLabels (mf : MetricFamily)
    (groupingLabels : gmap string string) : MetricFamily :=
  setMetric mf (sanitizeMetrics groupingLabels ∅ (fMetric mf)).

Definition TimestampsPresent (metricFamilies : gmap string MetricFamily) : bool :=
  existsb (λ '(_, mf), existsb (λ m, bool_decide (is_Some (mTimestampMs m))) (fMetric mf))
    (rangeMap metricFamilies).
End family_utils.

(** ** The store, the merge engine and the validator ([storage]) *)

Record MetricGroup := mkMetricGroup {
  mgLabels : gmap string string;
  mgMetricFamilies : gmap string MetricFamily
}.

(** A completion channel is known by its identity. *)
Definition Chan := nat.

(** [MetricFamilies] is [None] for a nil map (a delete request), [Done] is
    [None] for a nil channel. *)
Record WriteRequest := mkWriteRequest {
  wrLabels : gmap string string;
  wrTimestamp : Z;
  wrMetricFamilies : option (gmap string MetricFamily);
  wrReplace : bool;
  wrDone : option Chan
}.

Definition setMetricFamilies (wr : WriteRequest)
    (mfs : gmap string MetricFamily) : WriteRequest :=
  mkWriteRequest (wrLabels wr) (wrTimestamp wr) (Some mfs) (wrReplace wr) (wrDone wr).

(** The mapping guarded by the lock.  The lock serialises the accesses and
    the write queue is the sequence of requests handed to [loop] below. *)
Record MetricStorage := mkMetricStorage {
  metricGroups : gmap string MetricGroup
}.

Definition NewSimpleMetricStorage : MetricStorage := mkMetricStorage ∅.

(** *** A Go map keyed by [float64]

    Keys are compared with [==]: a NaN key is never found and every
    assignment under it adds an entry; the two zeros are one key. *)
Definition floatMap (V : Type) : Type := list (float * V).

Definition floatMap_lookup {V} (mm : floatMap V) (k : float) : option V :=
  snd <$> List.find (λ e, PrimFloat.eqb e.1 k) mm.

Fixpoint floatMap_insert {V} (mm : floatMap V) (k : float) (v : V) : floatMap V :=
  match mm with
  | [] => [(k, v)]
  | (k', v') :: mm' =>
      if PrimFloat.eqb k' k then (k', v) :: mm'
      else (k', v') :: floatMap_insert mm' k v
  end.

(** *** [mergeBuckets] *)

(** [mm[*bucket.UpperBound] = bucket] for every bucket of [b1].  The pointer
    to a bucket is its position in [b1]; [i] is the position of the head of
    [buckets]. *)
Fixpoint indexBuckets (mm : floatMap nat) (i : nat) (buckets : list Bucket)
    : floatMap nat :=
  match buckets with
  | [] => mm
  | bucket :: rest =>
      indexBuckets (floatMap_insert mm (bUpperBound bucket) i) (S i) rest
  end.

Definition bucketIndex (b1 : list Bucket) : floatMap nat := indexBuckets [] 0 b1.

Definition addCumulativeCount (n : Z) (b : Bucket) : Bucket :=
  mkBucket (add64 (bCumulativeCount b) n) (bUpperBound b).

Definition mergeBucket (mm : floatMap nat) (b1 : list Bucket) (b2Bucket : Bucket)
    : list Bucket :=
  match floatMap_lookup mm (bUpperBound b2Bucket) with
  | None => (b1 ++ [b2Bucket])%list
  | Some i => alter (addCumulativeCount (bCumulativeCount b2Bucket)) i b1
  end.

Definition mergeBuckets (b1 b2 : list Bucket) : list Bucket :=
  foldl (mergeBucket (bucketIndex b1)) b1 b2.

(** *** [mergeMetrics] *)

Definition setCounter (m : Metric) (v : float) : Metric :=
  mkMetric (mLabel m) (mGauge m) (Some v) (mSummary m) (mUntyped m)
    (mHistogram m) (mTimestampMs m).
Definition setGauge (m : Metric) (v : float) : Metric :=
  mkMetric (mLabel m) (Some v) (mCounter m) (mSummary m) (mUntyped m)
    (mHistogram m) (mTimestampMs m).
Definition setUntyped (m : Metric) (v : float) : Metric :=
  mkMetric (mLabel m) (mGauge m) (mCounter m) (mSummary m) (Some v)
    (mHistogram m) (mTimestampMs m).
Definition setSummary (m : Metric) (s : Summary) : Metric :=
  mkMetric (mLabel m) (mGauge m) (mCounter m) (Some s) (mUntyped m)
    (mHistogram m) (mTimestampMs m).
Definition setHistogram (m : Metric) (h : Histogram) : Metric :=
  mkMetric (mLabel m) (mGauge m) (mCounter m) (mSummary m) (mUntyped m)
    (Some h) (mTimestampMs m).

Definition mergeHistograms (hist1 hist2 : Histogram) : Histogram :=
  mkHistogram (add64 (hSampleCount hist1) (hSampleCount hist2))
    (hSampleSum hist1 + hSampleSum hist2)%float
    (mergeBuckets (hBucket hist1) (hBucket hist2)).

Definition mergeMetrics (mt : MetricType) (m1 m2 : Metric) : outcome Metric :=
  match mt with
  | COUNTER =>
      match mCounter m1, mCounter m2 with
      | Some v1, Some v2 => Ok (setCounter m1 (v1 + v2)%float)
      | _, _ => Panic
      end
  | GAUGE =>
      match mGauge m1, mGauge m2 with
      | Some _, Some v2 => Ok (setGauge m1 v2)
      | _, _ => Panic
      end
  | HISTOGRAM =>
      match mHistogram m1, mHistogram m2 with
      | Some hist1, Some hist2 => Ok (setHistogram m1 (mergeHistograms hist1 hist2))
      | _, _ => Panic
      end
  | SUMMARY =>
      match mSummary m1, mSummary m2 with
      | Some _, Some s2 => Ok (setSummary m1 s2)
      | _, _ => Panic
      end
  | UNTYPED =>
      match mUntyped m1, mUntyped m2 with
      | Some _, Some v2 => Ok (setUntyped m1 v2)
      | _, _ => Panic
      end
  end.

Section storage.
Context `{GoEnv}.

(** *** [mergeFamilies] *)

(** [mm[key] = metric] for every metric of [f1].  The pointer to a metric is
    its position in [f1.Metric]; [i] is the position of the head of
    [metrics]. *)
Fixpoint indexMetrics (mm : gmap string nat) (i : nat) (metrics : list Metric)
    : gmap string nat :=
  match metrics with
  | [] => mm
  | metric :: rest =>
      indexMetrics (<[GroupingKeyForLabelPair (mLabel metric) := i]> mm) (S i) rest
  end.

Definition metricIndex (f1Metric : list Metric) : gmap string nat :=
  indexMetrics ∅ 0 f1Metric.

(** The loop over [f2.Metric].  [mm] holds positions of [f1.Metric] as it
    was before the loop, and the loop only appends to it, so a position of
    [mm] is always filled. *)
Fixpoint mergeFamilyMetrics (mt : MetricType) (mm : gmap string nat)
    (f1Metric f2Metric : list Metric) : outcome (list Metric) :=
  match f2Metric with
  | [] => Ok f1Metric
  | f2Metric0 :: rest =>
      match mm !! GroupingKeyForLabelPair (mLabel f2Metric0) with
      | None => mergeFamilyMetrics mt mm (f1Metric ++ [f2Metric0])%list rest
      | Some i =>
          match f1Metric !! i with
          | Some f1Metric0 =>
              m ← mergeMetrics mt f1Metric0 f2Metric0;
              mergeFamilyMetrics mt mm (<[i := m]> f1Metric) rest
          | None => Panic
          end
      end
  end.

(** The result is the error, with [f1] untouched, or [f1] as updated. *)
Definition mergeFamilies (f1 f2 : MetricFamily) : outcome (Error + MetricFamily) :=
  if bool_decide (fType f1 ≠ fType f2)
  then Ok (inl (TypeConflict (fName f1) (fType f1) (fType f2)))
  else
    ms ← mergeFamilyMetrics (fType f1) (metricIndex (fMetric f1))
           (fMetric f1) (fMetric f2);
    Ok (inr (setMetric f1 ms)).

(** *** [mergeGroups] *)

(** The loop over [g2.MetricFamilies], visited in the order [todo], on the
    family map of [g1].  A family that cannot be merged is logged and
    skipped. *)
Fixpoint mergeGroupFamilies (todo : list (string * MetricFamily))
    (g1Families : gmap string MetricFamily) : outcome (gmap string MetricFamily) :=
  match todo with
  | [] => Ok g1Families
  | (key, g2Family) :: rest =>
      match g1Families !! key with
      | None => mergeGroupFamilies rest (<[key := g2Family]> g1Families)
      | Some g1Family =>
          r ← mergeFamilies g1Family g2Family;
          match r with
          | inl _ => mergeGroupFamilies rest g1Families
          | inr f => mergeGroupFamilies rest (<[key := f]> g1Families)
          end
      end
  end.

Definition mergeGroups (g1 g2 : MetricGroup) : outcome MetricGroup :=
  fams ← mergeGroupFamilies (rangeMap (mgMetricFamilies g2)) (mgMetricFamilies g1);
  Ok (mkMetricGroup (mgLabels g1) fams).

(** *** The store *)

Definition GetMetricFamilies (ms : MetricStorage) : list MetricFamily :=
  flat_map (λ '(_, group),
              (λ '(_, family), CopyMetricFamily family)
                <$> rangeMap (mgMetricFamilies group))
    (rangeMap (metricGroups ms)).

Definition GetMetricGroups (ms : MetricStorage) : gmap string MetricGroup :=
  (λ g, mkMetricGroup (mgLabels g) (CopyMetricFamily <$> mgMetricFamilies g))
    <$> metricGroups ms.

Definition processWriteRequest (ms : MetricStorage) (wr : WriteRequest)
    : outcome MetricStorage :=
  let groupingKey := GroupingKeyFor (wrLabels wr) in
  match wrMetricFamilies wr with
  | None => Ok (mkMetricStorage (delete groupingKey (metricGroups ms)))
  | Some metricFamilies =>
      let group := mkMetricGroup (wrLabels wr) metricFamilies in
      match metricGroups ms !! groupingKey with
      | Some prevGroup =>
          if wrReplace wr
          then Ok (mkMetricStorage (<[groupingKey := group]> (metricGroups ms)))
          else
            g ← mergeGroups prevGroup group;
            Ok (mkMetricStorage (<[groupingKey := g]> (metricGroups ms)))
      | None => Ok (mkMetricStorage (<[groupingKey := group]> (metricGroups ms)))
      end
  end.

(** *** The merge, and what it does to the request

    [validateConsistency] runs [processWriteRequest] on a copy of the store
    and afterwards the worker runs it on the store, with the same request,
    so what the first run does to the request matters.  The run writes into
    objects of its store, with one exception.  [mergeBuckets] appends
    buckets of the request to a bucket slice of the store by pointer; when
    a later metric of the request is merged into the same stored metric,
    the lookup table is rebuilt from that slice, and
    [*b1Bucket.CumulativeCount += *b2Bucket.CumulativeCount] can add into a
    bucket that belongs to the request.  The metrics that [mergeFamilies]
    appends and the families that [mergeGroups] and [processWriteRequest]
    put into the store are shared with the request as well, but the run
    does not write into them: the lookup table of [mergeFamilies] is built
    before its loop, and every family name is visited once.

    The definitions below follow the same source as the ones above and
    return, next to the value of the store side, the request side as the
    call leaves it.  A bucket of the request is named by the position of
    its metric in the family and its own position in that metric.  The
    metrics of the family of the request that the loop of [mergeFamilies]
    has visited are [visited]; for every bucket of a slice of the store,
    [owner] says whether it is a bucket of the request, and which. *)
Definition BucketOwner : Type := option (nat * nat).

(** [*b.CumulativeCount += n] on the bucket [i] of the metric [j] of the
    request. *)
Definition addToRequestBucket (n : Z) (j i : nat) (visited : list Metric)
    : list Metric :=
  alter (λ m, match mHistogram m with
              | Some hist =>
                  setHistogram m
                    (mkHistogram (hSampleCount hist) (hSampleSum hist)
                       (alter (addCumulativeCount n) i (hBucket hist)))
              | None => m
              end) j visited.

(** One round of the second loop of [mergeBuckets], for the bucket at
    position [i] of the metric at position [j] of the request. *)
Definition mergeBucketShared (mm : floatMap nat) (j : nat)
    (st : list Bucket * list BucketOwner * list Metric) (b2 : nat * Bucket)
    : list Bucket * list BucketOwner * list Metric :=
  let '(b1, owner, visited) := st in
  let '(i, b2Bucket) := b2 in
  match floatMap_lookup mm (bUpperBound b2Bucket) with
  | None => ((b1 ++ [b2Bucket])%list, (owner ++ [Some (j, i)])%list, visited)
  | Some q =>
      (alter (addCumulativeCount (bCumulativeCount b2Bucket)) q b1, owner,
       match owner !! q with
       | Some (Some (j', i')) =>
           addToRequestBucket (bCumulativeCount b2Bucket) j' i' visited
       | _ => visited
       end)
  end.

Definition mergeBucketsShared (b1 : list Bucket) (owner : list BucketOwner)
    (j : nat) (visited : list Metric) (b2 : list Bucket)
    : list Bucket * list BucketOwner * list Metric :=
  foldl (mergeBucketShared (bucketIndex b1) j) (b1, owner, visited)
    (imap (λ i b2Bucket, (i, b2Bucket)) b2).

(** [mergeMetrics] of the stored metric [m1] and the metric [m2] at
    position [j] of the request. *)
Definition mergeMetricsShared (mt : MetricType) (m1 : Metric)
    (owner : list BucketOwner) (j : nat) (visited : list Metric) (m2 : Metric)
    : outcome (Metric * list BucketOwner * list Metric) :=
  match mt with
  | HISTOGRAM =>
      match mHistogram m1, mHistogram m2 with
      | Some hist1, Some hist2 =>
          let '(b, owner, visited) :=
            mergeBucketsShared (hBucket hist1) owner j visited (hBucket hist2) in
          Ok (setHistogram m1
                (mkHistogram (add64 (hSampleCount hist1) (hSampleCount hist2))
                   (hSampleSum hist1 + hSampleSum hist2)%float b),
              owner, visited)
      | _, _ => Panic
      end
  | _ => m ← mergeMetrics mt m1 m2; Ok (m, owner, visited)
  end.

(** The buckets of a metric, and the owners of the buckets of a stored
    metric into which nothing was merged yet: they are all its own. *)
Definition bucketsOf (m : Metric) : list Bucket :=
  match mHistogram m with
  | Some hist => hBucket hist
  | None => []
  end.

Definition ownersOf (owners : gmap nat (list BucketOwner)) (i : nat) (m : Metric)
    : list BucketOwner :=
  default (replicate (length (bucketsOf m)) None) (owners !! i).

(** The loop of [mergeFamilies] over [f2.Metric]; [rest] are the metrics
    not visited yet. *)
Fixpoint mergeFamilyMetricsShared (mt : MetricType) (mm : gmap string nat)
    (f1Metric : list Metric) (owners : gmap nat (list BucketOwner))
    (visited rest : list Metric) : outcome (list Metric * list Metric) :=
  match rest with
  | [] => Ok (f1Metric, visited)
  | f2Metric0 :: rest =>
      match mm !! GroupingKeyForLabelPair (mLabel f2Metric0) with
      | None =>
          mergeFamilyMetricsShared mt mm (f1Metric ++ [f2Metric0])%list owners
            (visited ++ [f2Metric0])%list rest
      | Some i =>
          match f1Metric !! i with
          | Some f1Metric0 =>
              '(m, owner, visited) ←
                mergeMetricsShared mt f1Metric0 (ownersOf owners i f1Metric0)
                  (length visited) visited f2Metric0;
              mergeFamilyMetricsShared mt mm (<[i := m]> f1Metric)
                (<[i := owner]> owners) (visited ++ [f2Metric0])%list rest
          | None => Panic
          end
      end
  end.

(** The result is the error, with both families untouched, or [f1] and
    [f2] as the call leaves them. *)
Definition mergeFamiliesShared (f1 f2 : MetricFamily)
    : outcome (Error + MetricFamily * MetricFamily) :=
  if bool_decide (fType f1 ≠ fType f2)
  then Ok (inl (TypeConflict (fName f1) (fType f1) (fType f2)))
  else
    '(ms, visited) ← mergeFamilyMetricsShared (fType f1) (metricIndex (fMetric f1))
                       (fMetric f1) ∅ [] (fMetric f2);
    Ok (inr (setMetric f1 ms, setMetric f2 visited)).

(** The loop of [mergeGroups], on the family maps of both groups. *)
Fixpoint mergeGroupFamiliesShared (todo : list (string * MetricFamily))
    (g1Families g2Families : gmap string MetricFamily)
    : outcome (gmap string MetricFamily * gmap string MetricFamily) :=
  match todo with
  | [] => Ok (g1Families, g2Families)
  | (key, g2Family) :: rest =>
      match g1Families !! key with
      | None =>
          mergeGroupFamiliesShared rest (<[key := g2Family]> g1Families) g2Families
      | Some g1Family =>
          r ← mergeFamiliesShared g1Family g2Family;
          match r with
          | inl _ => mergeGroupFamiliesShared rest g1Families g2Families
          | inr (f1, f2) =>
              mergeGroupFamiliesShared rest (<[key := f1]> g1Families)
                (<[key := f2]> g2Families)
          end
      end
  end.

Definition mergeGroupsShared (g1 g2 : MetricGroup)
    : outcome (MetricGroup * MetricGroup) :=
  '(fams1, fams2) ← mergeGroupFamiliesShared (rangeMap (mgMetricFamilies g2))
                      (mgMetricFamilies g1) (mgMetricFamilies g2);
  Ok (mkMetricGroup (mgLabels g1) fams1, mkMetricGroup (mgLabels g2) fams2).

(** [processWriteRequest], with the request as the call leaves it. *)
Definition processWriteRequestShared (ms : MetricStorage) (wr : WriteRequest)
    : outcome (MetricStorage * WriteRequest) :=
  let groupingKey := GroupingKeyFor (wrLabels wr) in
  match wrMetricFamilies wr with
  | None => Ok (mkMetricStorage (delete groupingKey (metricGroups ms)), wr)
  | Some metricFamilies =>
      let group := mkMetricGroup (wrLabels wr) metricFamilies in
      match metricGroups ms !! groupingKey with
      | Some prevGroup =>
          if wrReplace wr
          then Ok (mkMetricStorage (<[groupingKey := group]> (metricGroups ms)), wr)
          else
            '(g, group) ← mergeGroupsShared prevGroup group;
            Ok (mkMetricStorage (<[groupingKey := g]> (metricGroups ms)),
                setMetricFamilies wr (mgMetricFamilies group))
      | None => Ok (mkMetricStorage (<[groupingKey := group]> (metricGroups ms)), wr)
      end
  end.

(** *** [validateConsistency] *)

(** The inner loop, over the groups of the store, for one family [f2]. *)
Fixpoint conflictInGroups (f2 : MetricFamily) (groups : list (string * MetricGroup))
    : option Error :=
  match groups with
  | [] => None
  | (_, group) :: rest =>
      match mgMetricFamilies group !! fName f2 with
      | Some f1 =>
          if bool_decide (fType f1 ≠ fType f2)
          then Some (TypeConflict (fName f1) (fType f1) (fType f2))
          else conflictInGroups f2 rest
      | None => conflictInGroups f2 rest
      end
  end.

(** The outer loop, over the families of the request. *)
Fixpoint conflictInFamilies (fams : list (string * MetricFamily))
    (groups : list (string * MetricGroup)) : option Error :=
  match fams with
  | [] => None
  | (_, f2) :: rest =>
      match conflictInGroups f2 groups with
      | Some err => Some err
      | None => conflictInFamilies rest groups
      end
  end.

(** The result is the returned error ([None] for nil) and the request as
    the call leaves it: its families are reached through pointers, so the
    caller sees them sanitized when the call got that far, and sees what
    the test run on the copy of the store did to them. *)
Definition validateConsistency (ms : MetricStorage) (wr : WriteRequest)
    : outcome (option Error * WriteRequest) :=
  match wrMetricFamilies wr with
  | None => Ok (None, wr)
  | Some metricFamilies =>
      match conflictInFamilies (rangeMap metricFamilies)
              (rangeMap (metricGroups ms)) with
      | Some err => Ok (Some err, wr)
      | None =>
          if TimestampsPresent metricFamilies then Ok (Some TimestampForbidden, wr)
          else
            let wr :=
              setMetricFamilies wr
                ((λ mf, SanitizeLabels mf (wrLabels wr)) <$> metricFamilies) in
            match wrDone wr with
            | None => Ok (None, wr)
            | Some _ =>
                let testMs := mkMetricStorage (GetMetricGroups ms) in
                '(testMs, wr) ← processWriteRequestShared testMs wr;
                match Gather (GetMetricFamilies testMs) with
                | Some msg => Ok (Some (InconsistentOnGather msg), wr)
                | None => Ok (None, wr)
                end
            end
      end
  end.

(** *** The worker, [loop] *)

(** What the worker does to completion channels: a send of an error value
    ([None] for a nil error) on a channel ([None] for the nil channel), or
    the closing of a channel. *)
Inductive ChanOp :=
| SendOp (ch : option Chan) (v : option Error)
| CloseOp (ch : Chan).

(** After a request the worker goes on to the next one ([Running]), is
    blocked for good in a send on the nil channel ([Blocked]), or the
    process has died of a panic ([Crashed]). *)
Inductive WorkerStatus := Running | Blocked | Crashed.

Record Worker := mkWorker {
  wStorage : MetricStorage;
  wTrace : list ChanOp;
  wStatus : WorkerStatus
}.

Definition closeDone (wr : WriteRequest) : list ChanOp :=
  match wrDone wr with
  | Some ch => [CloseOp ch]
  | None => []
  end.

(** The body of [loop] for one request [wr] taken from the queue.  A
    channel that is provided is taken to have room for the one value, as
    the channel of capacity one that [Push] allocates has. *)
Definition loopBody (ms : MetricStorage) (wr : WriteRequest) : Worker :=
  match validateConsistency ms wr with
  | Panic => mkWorker ms [] Crashed
  | Ok (None, wr) =>
      match processWriteRequest ms wr with
      | Panic => mkWorker ms [] Crashed
      | Ok ms' => mkWorker ms' (closeDone wr) Running
      end
  | Ok (Some err, wr) =>
      match wrDone wr with
      | None => mkWorker ms [SendOp None (Some err)] Blocked
      | Some ch => mkWorker ms [SendOp (Some ch) (Some err); CloseOp ch] Running
      end
  end.

End storage.

(** ** The push and delete adapters ([handler]) *)

Definition Base64JobSuffix : string := "@base64".

(** A request as the handlers read it: the route parameters [job] and
    [labels], and what the body parser (text exposition or delimited
    protobuf, by content type) made of the body. *)
Record Request := mkRequest {
  rJob : string;
  rLabels : string;
  rBody : string + gmap string MetricFamily
}.

Inductive BadRequest :=
| InvalidJobEncoding
| JobNameRequired
| BadLabels (e : SplitError)
| BadBody (e : string).

(** A handler answers 400 before anything is submitted, or it submits one
    write request to the store. *)
Inductive Handled :=
| Reply400 (why : BadRequest)
| Submit (wr : WriteRequest).

(** The statement [if job, err := utils.DecodeBase64(job); err != nil { ... }]
    declares a variable [job] of its own, whose scope is the [if] statement:
    the decoded name does not reach the code behind it.  The result says
    whether the branch that answers 400 was taken. *)
Definition decodeJobFails (base64 : bool) (job : string) : bool :=
  if base64 then
    match DecodeBase64 job with
    | Some _ => false
    | None => true
    end
  else false.

(** [now] is the arrival time and [errCh] the channel the handler makes. *)
Definition Push (base64 unchecked replace : bool) (now : Z) (errCh : Chan)
    (r : Request) : Handled :=
  let job := rJob r in
  if decodeJobFails base64 job then Reply400 InvalidJobEncoding
  else if String.eqb job "" then Reply400 JobNameRequired
  else
    match SplitLabels (rLabels r) Base64JobSuffix with
    | inl err => Reply400 (BadLabels err)
    | inr labels =>
        let labels := <["job" := job]> labels in
        match rBody r with
        | inl err => Reply400 (BadBody err)
        | inr metricFamilies =>
            if unchecked
            then Submit (mkWriteRequest labels now (Some metricFamilies) replace None)
            else Submit (mkWriteRequest labels now (Some metricFamilies) replace
                           (Some errCh))
        end
    end.

Definition Delete (base64 : bool) (now : Z) (r : Request) : Handled :=
  let job := rJob r in
  if decodeJobFails base64 job then Reply400 InvalidJobEncoding
  else if String.eqb job "" then Reply400 JobNameRequired
  else
    match SplitLabels (rLabels r) Base64JobSuffix with
    | inl err => Reply400 (BadLabels err)
    | inr labels =>
        let labels := <["job" := job]> labels in
        Submit (mkWriteRequest labels now None false None)
    end.

(** * The vocabulary of the statements

    Predicates that the statements below are about, a concrete environment,
    and the inputs of the concrete runs. *)

(** ** Label maps and label pairs *)

(** The grouping key as the specification words it: the label names sorted
    lexicographically, then [name SEP value SEP name SEP value ...] without a
    trailing separator.  It mentions neither the iteration order of the map
    nor the sorting routine of the environment. *)
Definition sorted_names (labels : gmap string string) : list string :=
  merge_sort String.le ((map_to_list labels).*1).

Definition grouping_key_spec (sep : ascii) (labels : gmap string string) : string :=
  String.concat (String sep "")
    (flat_map (λ n, [n; default "" (labels !! n)]) (sorted_names labels)).

(** The map that the assignments [labels[k] = v] build, made in the order of
    the list. *)
Definition assignAll (l : list (string * string)) : gmap string string :=
  foldl (λ m '(k, v), <[k := v]> m) ∅ l.

(** What the walk over the label pairs does to one pair when the map of
    labels not yet done is [g]. *)
Definition overwrite (g : gmap string string) (lp : LabelPair) : LabelPair :=
  match g !! lpName lp with
  | Some lv => mkLabelPair (lpName lp) lv
  | None => lp
  end.

(** The label pairs of a sanitized metric: distinct names, every grouping
    label with the value of the group, an instance label, sorted by name. *)
Definition sanitized (groupingLabels : gmap string string) (l : list LabelPair) : Prop :=
  NoDup (lpName <$> l)
  ∧ (∀ k v, groupingLabels !! k = Some v → mkLabelPair k v ∈ l)
  ∧ InstanceLabel ∈ lpName <$> l
  ∧ Sorted lp_le l.

(** ** Buckets *)

(** When [==] holds of two floats, in terms of their decoded form: both are
    zeros, or the same infinity, or the same finite number. *)
Definition SF_same (a b : spec_float) : Prop :=
  match a, b with
  | S754_zero _, S754_zero _ => True
  | S754_infinity s1, S754_infinity s2 => s1 = s2
  | S754_finite s1 m1 e1, S754_finite s2 m2 e2 => s1 = s2 ∧ m1 = m2 ∧ e1 = e2
  | _, _ => False
  end.

(** The buckets of a list have pairwise distinct upper bounds. *)
Definition distinctBounds (l : list Bucket) : Prop :=
  ForallOrdPairs (λ a b, PrimFloat.eqb (bUpperBound a) (bUpperBound b) = false) l.

(** Some bucket of the list has the upper bound [x]. *)
Definition hasBound (l : list Bucket) (x : float) : Prop :=
  ∃ b, b ∈ l ∧ PrimFloat.eqb (bUpperBound b) x = true.

(** What the merge makes of a bucket [a] of the first list: the count of the
    bucket of the second list with the same bound is added, if there is
    one. *)
Definition mergedWith (b2 : list Bucket) (a : Bucket) : Bucket :=
  match List.find (λ c, PrimFloat.eqb (bUpperBound a) (bUpperBound c)) b2 with
  | Some c => addCumulativeCount (bCumulativeCount c) a
  | None => a
  end.

(** No bucket of [b1] has the bound of [c]. *)
Definition freshFor (b1 : list Bucket) (c : Bucket) : bool :=
  forallb (λ a, negb (PrimFloat.eqb (bUpperBound a) (bUpperBound c))) b1.

(** ** Write requests *)

(** A family of the request has the name of a family of the store and
    another type. *)
Definition typeConflict (ms : MetricStorage) (fams : gmap string MetricFamily) : Prop :=
  ∃ k f2 gk group f1,
    fams !! k = Some f2 ∧ metricGroups ms !! gk = Some group
    ∧ mgMetricFamilies group !! fName f2 = Some f1 ∧ fType f1 ≠ fType f2.

(** A metric of a family of the request carries a timestamp. *)
Definition carriesTimestamp (fams : gmap string MetricFamily) : Prop :=
  ∃ k mf m, fams !! k = Some mf ∧ m ∈ fMetric mf ∧ is_Some (mTimestampMs m).

(** The request with its families sanitized against its grouping labels. *)
Definition sanitizedRequest `{GoEnv} (wr : WriteRequest)
    (fams : gmap string MetricFamily) : WriteRequest :=
  setMetricFamilies wr ((λ mf, SanitizeLabels mf (wrLabels wr)) <$> fams).

(** A family with the cumulative counts of its histogram buckets set to
    zero: two families agree in everything but those counts when this makes
    them equal.  In particular they then have the same name, help text and
    type, and their metrics the same label pairs, timestamps and payloads
    short of the bucket counts. *)
Definition forgetCount (b : Bucket) : Bucket := mkBucket 0 (bUpperBound b).

Definition forgetCountsMetric (m : Metric) : Metric :=
  match mHistogram m with
  | Some hist =>
      setHistogram m
        (mkHistogram (hSampleCount hist) (hSampleSum hist) (forgetCount <$> hBucket hist))
  | None => m
  end.

Definition forgetCounts (f : MetricFamily) : MetricFamily :=
  setMetric f (forgetCountsMetric <$> fMetric f).

(** The store side of a result that comes with the request side. *)
Definition storeSide {A B} (r : outcome (A * B)) : outcome A :=
  '(a, _) ← r; Ok a.

(** ** A concrete environment

    An environment that meets the contracts of [GoEnv]: merge sort for both
    sorting routines, the order of [map_to_list] for [range], the separator
    byte that [prometheus/common] declares (255), and a gatherer after the
    specification's words. *)

(** Modelled from the spec: [prometheus.Gatherers.Gather] is a library
    outside the repository.  Section 4.4, step 6: the sweep fails when two
    families of the flattened list share a name with different types, or
    when one family contains two metrics with the same label signature. *)
Definition specGather (fams : list MetricFamily) : option string :=
  if existsb (λ f, existsb (λ g, String.eqb (fName f) (fName g)
                                  && bool_decide (fType f ≠ fType g)) fams) fams
  then Some "inconsistent types"
  else if existsb (λ f, bool_decide
                     (¬ NoDup ((λ m, foldl (λ acc lp, <[lpName lp := lpValue lp]> acc)
                                       (∅ : gmap string string) (mLabel m))
                               <$> fMetric f))) fams
  then Some "duplicate series"
  else None.

#[global] Instance lp_le_trans : Transitive lp_le.
Proof. intros a b c. unfold lp_le. apply transitivity. Qed.

#[global] Instance lp_le_total : Total lp_le.
Proof. intros a b. unfold lp_le. apply total, _. Qed.

Definition goStd : GoEnv := {|
  SeparatorByte := ModelSeparatorByte;
  sortStrings := merge_sort String.le;
  sortStrings_perm := merge_sort_Permutation String.le;
  sortStrings_sorted := Sorted_merge_sort String.le;
  sortLabelPairs := merge_sort lp_le;
  sortLabelPairs_perm := merge_sort_Permutation lp_le;
  sortLabelPairs_sorted := Sorted_merge_sort lp_le;
  rangeMap := λ A m, map_to_list m;
  rangeMap_perm := λ A m, reflexivity (map_to_list m);
  Gather := specGather
|}.

(** ** Inputs *)

(** A counter metric and a counter family of one metric. *)
Definition counterMetric (labels : list LabelPair) (v : float) : Metric :=
  mkMetric labels None (Some v) None None None None.

Definition counterFamily (name help : string) (labels : list LabelPair) (v : float)
    : MetricFamily :=
  mkMetricFamily name help COUNTER [counterMetric labels v].

(** The grouping labels [{job="t"}]. *)
Definition jobT : gmap string string := {["job" := "t"]}.

(** The labels [{instance="", job="t"}], in order. *)
Definition instanceJobT : list LabelPair :=
  [mkLabelPair "instance" ""; mkLabelPair "job" "t"].



(** A label value that spells out [x SEP b SEP y]; the label map with that
    one value and the label map [{a="x", b="y"}]; label pairs of a metric
    sanitized against the one and against the other. *)
Definition spelled `{GoEnv} : string :=
  String "x" (String SeparatorByte (String "b" (String SeparatorByte "y"))).

Definition oneLabel `{GoEnv} : gmap string string := {["a" := spelled]}.

Definition twoLabels : gmap string string := {["a" := "x"; "b" := "y"]}.

Definition onePair `{GoEnv} : list LabelPair :=
  [mkLabelPair "a" spelled; mkLabelPair "instance" ""].

Definition twoPairs : list LabelPair :=
  [mkLabelPair "a" "x"; mkLabelPair "b" "y"; mkLabelPair "instance" ""].

(** A store that holds the gauge [foo] under [{job="t"}]. *)
Definition gaugeFoo : MetricFamily :=
  mkMetricFamily "foo" "" GAUGE [mkMetric [] (Some 1%float) None None None None None].

Definition gaugeStore : MetricStorage :=
  mkMetricStorage
    {[@GroupingKeyFor goStd jobT := mkMetricGroup jobT {["foo" := gaugeFoo]}]}.

(** Pushes of the counter [foo] under [{job="t"}], whose one metric has no
    labels: one without and one with a timestamp. *)
Definition counterFoo : MetricFamily := counterFamily "foo" "" [] 1.

Definition stampedMetric : Metric :=
  mkMetric [] None (Some 1%float) None None None (Some 0).

Definition stampedFoo : MetricFamily :=
  mkMetricFamily "foo" "" COUNTER [stampedMetric].

Definition pushCounter (done : option Chan) : WriteRequest :=
  mkWriteRequest jobT 0 (Some {["foo" := counterFoo]}) false done.

Definition pushStamped (done : option Chan) : WriteRequest :=
  mkWriteRequest jobT 0 (Some {["foo" := stampedFoo]}) false done.

(** A delete of the group [{job="t"}]. *)
Definition deleteJobT (done : option Chan) : WriteRequest :=
  mkWriteRequest jobT 0 None false done.

(** A histogram metric; a store that holds the histogram [h] under
    [{job="t"}] with the one bucket of bound 20 and count 1; and a push of
    [h] under [{job="t"}] with two metrics, labelled [{job="x"}] and
    [{job="y"}], each with one bucket of bound 40, of counts 5 and 7.
    Sanitizing gives both metrics the labels of the stored one. *)
Definition histogramMetric (labels : list LabelPair) (count : Z) (sum : float)
    (buckets : list Bucket) : Metric :=
  mkMetric labels None None None None (Some (mkHistogram count sum buckets)) None.

Definition histogramStore : MetricStorage :=
  mkMetricStorage
    {[@GroupingKeyFor goStd jobT :=
        mkMetricGroup jobT
          {["h" := mkMetricFamily "h" "" HISTOGRAM
                     [histogramMetric instanceJobT 1 1 [mkBucket 1 20]]]}]}.

Definition pushHistograms (done : option Chan) : WriteRequest :=
  mkWriteRequest jobT 0
    (Some {["h" := mkMetricFamily "h" "" HISTOGRAM
                     [histogramMetric [mkLabelPair "job" "x"] 5 5 [mkBucket 5 40];
                      histogramMetric [mkLabelPair "job" "y"] 7 7 [mkBucket 7 40]]]})
    false done.

(** The histogram family [h] with the two sanitized metrics, whose buckets
    of bound 40 have the counts [a] and 7, and with the one stored metric
    whose buckets are those of bounds 20 and 40 with the counts 1 and [c]. *)
Definition pushedHistograms (a : Z) : MetricFamily :=
  mkMetricFamily "h" "" HISTOGRAM
    [histogramMetric instanceJobT 5 5 [mkBucket a 40];
     histogramMetric instanceJobT 7 7 [mkBucket 7 40]].

Definition storedHistogram (c : Z) : MetricFamily :=
  mkMetricFamily "h" "" HISTOGRAM
    [histogramMetric instanceJobT 13 13 [mkBucket 1 20; mkBucket c 40]].

(** * Properties *)

(** ** The iteration order and the sorting routines *)

Section env_facts.
Context `{GoEnv}.

Lemma rangeMap_elem_of {A} (m : gmap string A) k v :
  (k, v) ∈ rangeMap m ↔ m !! k = Some v.
Proof. rewrite rangeMap_perm. apply elem_of_map_to_list. Qed.

Lemma rangeMap_empty {A} : rangeMap (∅ : gmap string A) = [].
Proof.
  apply Permutation_nil_r. rewrite rangeMap_perm. by rewrite map_to_list_empty.
Qed.

Lemma rangeMap_singleton {A} k (v : A) :
  rangeMap ({[k := v]} : gmap string A) = [(k, v)].
Proof.
  apply Permutation_singleton_r. rewrite rangeMap_perm.
  by rewrite map_to_list_singleton.
Qed.

Lemma rangeMap_NoDup_fst {A} (m : gmap string A) : NoDup (rangeMap m).*1.
Proof. rewrite rangeMap_perm. apply NoDup_fst_map_to_list. Qed.

Lemma rangeMap_length {A} (m : gmap string A) : length (rangeMap m) = size m.
Proof. rewrite rangeMap_perm. by rewrite length_map_to_list. Qed.

(** A sorting routine that meets the contract computes the one sorted
    arrangement of distinct names. *)
Lemma sortStrings_unique (l1 l2 : list string) :
  l1 ≡ₚ l2 → Sorted String.le l2 → sortStrings l1 = l2.
Proof.
  intros Hp Hs. apply (Sorted_unique String.le); [apply sortStrings_sorted|done|].
  by rewrite sortStrings_perm.
Qed.

Lemma sortStrings_names (labels : gmap string string) :
  sortStrings ((rangeMap labels).*1) = sorted_names labels.
Proof.
  apply sortStrings_unique.
  - unfold sorted_names. rewrite merge_sort_Permutation. by rewrite rangeMap_perm.
  - apply (Sorted_merge_sort String.le).
Qed.
End env_facts.

Lemma sorted_names_length (labels : gmap string string) :
  length (sorted_names labels) = size labels.
Proof.
  unfold sorted_names. rewrite merge_sort_Permutation.
  by rewrite length_fmap, length_map_to_list.
Qed.

(** ** The grouping key *)

Section grouping_key.
Context `{GoEnv}.

Lemma string_app_assoc (a b c : string) : (a +:+ b) +:+ c = a +:+ (b +:+ c).
Proof.
  induction a as [|x a IH]; [done|].
  change (String x ((a +:+ b) +:+ c) = String x (a +:+ (b +:+ c))).
  by rewrite IH.
Qed.

Lemma string_app_nil_r (a : string) : a +:+ "" = a.
Proof.
  induction a as [|x a IH]; [done|].
  change (String x (a +:+ "") = String x a). by rewrite IH.
Qed.

(** The indexed loop writes the names and values joined by the
    separator. *)
Lemma writeLabels_concat (labels : gmap string string) names i sb :
  (i + length names = size labels)%nat →
  writeLabels labels i names sb =
    sb +:+ String.concat sepString
             (flat_map (λ n, [n; default "" (labels !! n)]) names).
Proof.
  revert i sb. induction names as [|n names IH]; intros i sb Hlen.
  { simpl. by rewrite string_app_nil_r. }
  cbn [writeLabels]. destruct names as [|n' names].
  - rewrite bool_decide_false by (simpl in Hlen; lia).
    cbn. by rewrite !string_app_assoc.
  - rewrite bool_decide_true by (simpl in Hlen; lia).
    rewrite IH by (simpl in *; lia).
    cbn [flat_map app String.concat].
    by rewrite !string_app_assoc.
Qed.

Lemma GroupingKeyFor_eq_spec (labels : gmap string string) :
  GroupingKeyFor labels = grouping_key_spec SeparatorByte labels.
Proof.
  unfold GroupingKeyFor, grouping_key_spec. case_bool_decide as Hsz.
  - apply map_size_empty_iff in Hsz. subst labels.
    unfold sorted_names. by rewrite map_to_list_empty.
  - rewrite sortStrings_names.
    rewrite writeLabels_concat by (rewrite sorted_names_length; lia).
    done.
Qed.
End grouping_key.

Lemma foldl_insert_union (l : list (string * string)) (acc : gmap string string) :
  NoDup l.*1 →
  foldl (λ m '(k, v), <[k := v]> m) acc l = list_to_map l ∪ acc.
Proof.
  revert acc. induction l as [|[k v] l IH]; intros acc Hnd.
  { simpl. by rewrite (left_id_L ∅ (∪)). }
  apply NoDup_cons in Hnd as [Hk Hnd]. simpl. rewrite IH by done.
  rewrite <-insert_union_l. symmetry. apply insert_union_r.
  by apply not_elem_of_list_to_map_1.
Qed.

Lemma assignAll_perm (l1 l2 : list (string * string)) :
  NoDup l1.*1 → l1 ≡ₚ l2 → assignAll l1 = assignAll l2.
Proof.
  intros Hnd Hp. unfold assignAll.
  rewrite !foldl_insert_union by (done || by rewrite <-Hp).
  f_equal. by apply list_to_map_proper.
Qed.

(** C7, amended.  With [model.SeparatorByte] the byte 255 that
    [prometheus/common] declares, for every label map the grouping key is
    the string built from the label names sorted lexicographically, each
    followed by its value, joined by single bytes 255 with none at the end.
    The empty map gives the empty string.  The key depends neither on the
    order in which the map is iterated nor on the sorting routine, and maps
    built from the same distinct pairs in different orders have the same
    key. *)
Theorem GroupingKeyFor_spec `{GoEnv} :
  SeparatorByte = ModelSeparatorByte →
  (∀ labels : gmap string string,
     GroupingKeyFor labels = grouping_key_spec "255" labels
     ∧ Sorted String.le (sorted_names labels)
     ∧ sorted_names labels ≡ₚ (map_to_list labels).*1)
  ∧ GroupingKeyFor ∅ = ""
  ∧ (∀ l1 l2 : list (string * string),
       NoDup l1.*1 → l1 ≡ₚ l2 →
       GroupingKeyFor (assignAll l1) = GroupingKeyFor (assignAll l2)).
Proof.
  intros Hsep. split; [|split].
  - intros labels. split; [by rewrite GroupingKeyFor_eq_spec, Hsep|]. split.
    + apply (Sorted_merge_sort String.le).
    + apply merge_sort_Permutation.
  - unfold GroupingKeyFor. by rewrite map_size_empty.
  - intros l1 l2 Hnd Hp. by rewrite (assignAll_perm l1 l2).
Qed.

(** The key of [{job="t", instance="i"}], whichever pair is assigned first. *)
Lemma GroupingKeyFor_spec_witness :
  @GroupingKeyFor goStd (assignAll [("job", "t"); ("instance", "i")])
  = @GroupingKeyFor goStd (assignAll [("instance", "i"); ("job", "t")])
  ∧ @GroupingKeyFor goStd (assignAll [("job", "t"); ("instance", "i")])
    = String.concat (String "255" "") ["instance"; "i"; "job"; "t"].
Proof.
  destruct (@GroupingKeyFor_spec goStd eq_refl) as (Hkey & _ & Horder).
  split.
  - apply Horder.
    + compute_done.
    + apply Permutation_swap.
  - rewrite (proj1 (Hkey _)). vm_compute. reflexivity.
Defined.

(** The key of [{job="t", instance="i"}] is not the string that a NUL byte
    joins. *)
Lemma GroupingKeyFor_nul_counterexample :
  @GroupingKeyFor goStd (assignAll [("job", "t"); ("instance", "i")])
  ≠ String.concat (String "000" "") ["instance"; "i"; "job"; "t"]
  ∧ @GroupingKeyFor goStd (assignAll [("job", "t"); ("instance", "i")])
    ≠ grouping_key_spec "000" (assignAll [("job", "t"); ("instance", "i")]).
Proof. split; vm_compute; discriminate. Qed.

(** ** Sanitizing the labels of a metric *)

Section sanitize_facts.
Context `{GoEnv}.

Lemma fill_from_empty (groupingLabels : gmap string string) :
  foldl (λ g '(ln, lv), <[ln := lv]> g) ∅ (rangeMap groupingLabels) = groupingLabels.
Proof.
  rewrite foldl_insert_union by apply rangeMap_NoDup_fst.
  rewrite (right_id_L ∅ (∪)).
  rewrite (list_to_map_proper _ (map_to_list groupingLabels)).
  - apply list_to_map_to_list.
  - apply rangeMap_NoDup_fst.
  - apply rangeMap_perm.
Qed.

Lemma overwrite_name g lp : lpName (overwrite g lp) = lpName lp.
Proof. unfold overwrite. by destruct (g !! lpName lp). Qed.

Lemma overwrite_names g (l : list LabelPair) : lpName <$> (overwrite g <$> l) = lpName <$> l.
Proof.
  rewrite <-list_fmap_compose. apply list_fmap_ext. intros i x _. simpl.
  apply overwrite_name.
Qed.

Lemma overwrite_ext g1 g2 lp :
  g1 !! lpName lp = g2 !! lpName lp → overwrite g1 lp = overwrite g2 lp.
Proof. unfold overwrite. by intros ->. Qed.

(** The walk rewrites the pairs as [overwrite] says, when the names are
    distinct; this holds also when the walk stops early. *)
Lemma scanLabels_out lps g h :
  NoDup (lpName <$> lps) →
  (scanLabels lps g h).1.1.1 = overwrite g <$> lps.
Proof.
  revert g h. induction lps as [|lp rest IH]; intros g h Hnd; [done|].
  rewrite fmap_cons in Hnd. apply NoDup_cons in Hnd as [Hhd Hnd].
  cbn [scanLabels].
  set (g1 := match g !! lpName lp with Some _ => delete (lpName lp) g | None => g end).
  set (h1 := if bool_decide (lpName lp = InstanceLabel) then true else h).
  assert (Hg1 : ∀ lp2, lp2 ∈ rest → g1 !! lpName lp2 = g !! lpName lp2).
  { intros lp2 Hin. unfold g1. destruct (g !! lpName lp) eqn:E; [|done].
    apply lookup_delete_ne. intros Heq. apply Hhd. rewrite Heq.
    by apply list_elem_of_fmap_2. }
  assert (Hrest : overwrite g1 <$> rest = overwrite g <$> rest).
  { apply list_fmap_ext. intros i x Hx. apply overwrite_ext, Hg1.
    by eapply list_elem_of_lookup_2. }
  assert (Hsplit :
    (match g !! lpName lp with
     | Some lv => (mkLabelPair (lpName lp) lv, delete (lpName lp) g)
     | None => (lp, g)
     end) = (overwrite g lp, g1)).
  { unfold overwrite, g1. by destruct (g !! lpName lp). }
  rewrite Hsplit. fold h1.
  destruct (bool_decide (size g1 = 0%nat) && h1) eqn:Hex.
  - cbn. f_equal. rewrite <-Hrest.
    apply andb_true_iff in Hex as [Hsz _]. apply bool_decide_eq_true in Hsz.
    apply map_size_empty_iff in Hsz. rewrite Hsz.
    symmetry. rewrite <-(list_fmap_id rest) at 2. apply list_fmap_ext.
    intros i x _. unfold overwrite. by rewrite lookup_empty.
  - specialize (IH g1 h1 Hnd).
    destruct (scanLabels rest g1 h1) as [[[rest' g'] h'] ex]. cbn in *.
    by rewrite IH, Hrest.
Qed.

(** What the walk leaves behind.  When it stops early the map is empty, the
    flag is set, and every key of the map it started with names a pair.
    When it runs to the end the map has lost the names of the pairs, the
    flag records an instance label, and, if there was a pair at all, the
    stopping condition does not hold. *)
Lemma scanLabels_state lps g h out g' h' ex :
  scanLabels lps g h = (out, g', h', ex) →
  if ex then
    g' = ∅ ∧ h' = true
    ∧ (∀ k, is_Some (g !! k) → k ∈ lpName <$> lps)
    ∧ (h = true ∨ InstanceLabel ∈ lpName <$> lps)
  else
    (∀ k, g' !! k = if bool_decide (k ∈ lpName <$> lps) then None else g !! k)
    ∧ h' = (h || bool_decide (InstanceLabel ∈ lpName <$> lps))
    ∧ (lps ≠ [] → ¬ (g' = ∅ ∧ h' = true)).
Proof.
  revert g h out g' h' ex. induction lps as [|lp rest IH]; intros g h out g' h' ex.
  { cbn. intros [= <- <- <- <-]. split; [|split]; [|by rewrite orb_false_r|done].
    intros k. by rewrite bool_decide_false by apply not_elem_of_nil. }
  cbn [scanLabels].
  set (g1 := match g !! lpName lp with Some _ => delete (lpName lp) g | None => g end).
  set (h1 := if bool_decide (lpName lp = InstanceLabel) then true else h).
  assert (Hsplit :
    (match g !! lpName lp with
     | Some lv => (mkLabelPair (lpName lp) lv, delete (lpName lp) g)
     | None => (lp, g)
     end) = (overwrite g lp, g1)).
  { unfold overwrite, g1. by destruct (g !! lpName lp). }
  rewrite Hsplit. fold h1.
  assert (Hg1 : ∀ k, g1 !! k = if bool_decide (k = lpName lp) then None else g !! k).
  { intros k. unfold g1. destruct (decide (k = lpName lp)) as [->|Hne].
    - rewrite bool_decide_true by done.
      destruct (g !! lpName lp) eqn:E; [apply lookup_delete_eq|done].
    - rewrite bool_decide_false by done.
      destruct (g !! lpName lp) eqn:E; [by apply lookup_delete_ne|done]. }
  assert (Hh1 : h1 = (h || bool_decide (InstanceLabel = lpName lp))).
  { unfold h1. destruct (decide (lpName lp = InstanceLabel)) as [Hk|Hk].
    - rewrite !bool_decide_true by congruence. by rewrite orb_true_r.
    - rewrite !bool_decide_false by congruence. by rewrite orb_false_r. }
  destruct (bool_decide (size g1 = 0%nat) && h1) eqn:Hex.
  - intros [= <- <- <- <-].
    apply andb_true_iff in Hex as [Hsz Hh]. apply bool_decide_eq_true in Hsz.
    apply map_size_empty_iff in Hsz. split; [done|]. split; [done|]. split.
    + intros k Hk. rewrite fmap_cons. destruct (decide (k = lpName lp)) as [->|Hne].
      { apply list_elem_of_here. }
      exfalso. specialize (Hg1 k). rewrite bool_decide_false in Hg1 by done.
      rewrite Hsz, lookup_empty in Hg1. rewrite <-Hg1 in Hk. by destruct Hk.
    + rewrite Hh1 in Hh. apply orb_true_iff in Hh as [Hh|Hh]; [by left|right].
      apply bool_decide_eq_true in Hh. rewrite Hh, fmap_cons. apply list_elem_of_here.
  - destruct (scanLabels rest g1 h1) as [[[rest' g2] h2] ex2] eqn:Hscan.
    intros [= <- <- <- <-]. specialize (IH _ _ _ _ _ _ Hscan).
    destruct ex2.
    + destruct IH as (Hg2 & Hh2 & Hkeys & Hinst). split; [done|]. split; [done|]. split.
      * intros k Hk. rewrite fmap_cons. destruct (decide (k = lpName lp)) as [->|Hne].
        { apply list_elem_of_here. }
        apply list_elem_of_further, Hkeys. rewrite Hg1.
        by rewrite bool_decide_false.
      * rewrite fmap_cons. destruct Hinst as [Hinst|Hinst].
        -- rewrite Hh1 in Hinst. apply orb_true_iff in Hinst as [?|Hi]; [by left|right].
           apply bool_decide_eq_true in Hi. rewrite Hi. apply list_elem_of_here.
        -- right. by apply list_elem_of_further.
    + destruct IH as (Hg2 & Hh2 & Hstop). split; [|split].
      * intros k. rewrite Hg2, Hg1, fmap_cons.
        destruct (decide (k = lpName lp)) as [->|Hne].
        { rewrite (bool_decide_true (lpName lp = lpName lp)) by done.
          rewrite (bool_decide_true (_ ∈ _ :: _)) by apply list_elem_of_here.
          destruct (bool_decide (lpName lp ∈ lpName <$> rest)); reflexivity. }
        rewrite (bool_decide_false (k = lpName lp)) by done.
        destruct (decide (k ∈ lpName <$> rest)) as [Hin|Hin].
        -- rewrite (bool_decide_true (k ∈ lpName <$> rest)) by done.
           by rewrite bool_decide_true by (by apply list_elem_of_further).
        -- rewrite (bool_decide_false (k ∈ lpName <$> rest)) by done.
           by rewrite bool_decide_false by (rewrite elem_of_cons; tauto).
      * rewrite Hh2, Hh1, fmap_cons, <-orb_assoc. f_equal.
        apply eq_true_iff_eq. rewrite orb_true_iff, !bool_decide_eq_true.
        rewrite elem_of_cons. tauto.
      * intros _ [Hempty Htrue]. destruct rest as [|lp2 rest2].
        -- cbn in Hscan. injection Hscan as <- <- <- . 
           rewrite Hempty, Htrue in Hex. by rewrite map_size_empty in Hex.
        -- by apply Hstop.
Qed.

(** The loop over what is left of the map appends one pair for each entry
    and empties the map. *)
Lemma appendMissing_eq todo label g h :
  appendMissing todo label g h =
    ((label ++ ((λ '(ln, lv), mkLabelPair ln lv) <$> todo))%list,
     foldl (λ g '(ln, _), delete ln g) g todo,
     h || bool_decide (InstanceLabel ∈ todo.*1)).
Proof.
  revert label g h. induction todo as [|[ln lv] todo IH]; intros label g h.
  { cbn. rewrite bool_decide_false by apply not_elem_of_nil.
    by rewrite app_nil_r, orb_false_r. }
  cbn [appendMissing]. rewrite IH. cbn [fmap list_fmap foldl fst].
  rewrite <-app_assoc. cbn [app]. f_equal.
  destruct (decide (ln = InstanceLabel)) as [->|Hne].
  - rewrite (bool_decide_true (InstanceLabel = InstanceLabel)) by done.
    rewrite (bool_decide_true (_ ∈ _ :: _)) by apply list_elem_of_here.
    cbn. by rewrite orb_true_r.
  - rewrite (bool_decide_false (ln = InstanceLabel)) by done.
    f_equal. apply eq_true_iff_eq. rewrite !bool_decide_eq_true, elem_of_cons.
    split; [tauto|]. intros [?|?]; [congruence|done].
Qed.

Lemma foldl_delete_lookup (todo : list (string * string)) (g : gmap string string) k :
  foldl (λ g '(ln, _), delete ln g) g todo !! k =
    if bool_decide (k ∈ todo.*1) then None else g !! k.
Proof.
  revert g. induction todo as [|[ln lv] todo IH]; intros g.
  { cbn. by rewrite bool_decide_false by apply not_elem_of_nil. }
  cbn [foldl fmap list_fmap fst]. rewrite IH.
  destruct (decide (k ∈ todo.*1)) as [Hin|Hin].
  - rewrite (bool_decide_true (k ∈ todo.*1)) by done.
    by rewrite bool_decide_true by (by apply list_elem_of_further).
  - rewrite (bool_decide_false (k ∈ todo.*1)) by done.
    destruct (decide (k = ln)) as [->|Hne].
    + rewrite bool_decide_true by apply list_elem_of_here. apply lookup_delete_eq.
    + rewrite bool_decide_false by (rewrite elem_of_cons; tauto).
      by apply lookup_delete_ne.
Qed.

Lemma foldl_delete_all (g : gmap string string) :
  foldl (λ g '(ln, _), delete ln g) g (rangeMap g) = ∅.
Proof.
  apply map_eq. intros k. rewrite foldl_delete_lookup, lookup_empty.
  destruct (g !! k) as [v|] eqn:E; [|by destruct (bool_decide _)].
  rewrite bool_decide_true; [done|].
  apply rangeMap_elem_of in E. by apply (list_elem_of_fmap_2 fst) in E.
Qed.

(** Names determine the pairs of a list whose names are distinct. *)
Lemma NoDup_names_inj (l : list LabelPair) a b :
  NoDup (lpName <$> l) → a ∈ l → b ∈ l → lpName a = lpName b → a = b.
Proof.
  induction l as [|x l IH]; intros Hnd Ha Hb Hab; [by apply elem_of_nil in Ha|].
  rewrite fmap_cons in Hnd. apply NoDup_cons in Hnd as [Hx Hnd].
  apply elem_of_cons in Ha as [->|Ha]; apply elem_of_cons in Hb as [->|Hb].
  - done.
  - exfalso. apply Hx. rewrite Hab. by apply list_elem_of_fmap_2.
  - exfalso. apply Hx. rewrite <-Hab. by apply list_elem_of_fmap_2.
  - by apply IH.
Qed.

(** Sorting label pairs that are sorted already, with distinct names,
    changes nothing. *)
Lemma sortLabelPairs_sorted_id (l : list LabelPair) :
  NoDup (lpName <$> l) → Sorted lp_le l → sortLabelPairs l = l.
Proof.
  intros Hnd Hs. apply (Sorted_unique_strong lp_le).
  - intros a b Ha Hb Hab Hba. rewrite sortLabelPairs_perm in Ha.
    apply (NoDup_names_inj l); [done..|].
    by apply (anti_symm String.le).
  - apply sortLabelPairs_sorted.
  - done.
  - apply sortLabelPairs_perm.
Qed.

Lemma mk_names (todo : list (string * string)) :
  lpName <$> ((λ '(ln, lv), mkLabelPair ln lv) <$> todo) = todo.*1.
Proof.
  rewrite <-list_fmap_compose. apply list_fmap_ext. by intros i [ln lv] _.
Qed.

Lemma sanitized_sort gl (l : list LabelPair) :
  NoDup (lpName <$> l) →
  (∀ k v, gl !! k = Some v → mkLabelPair k v ∈ l) →
  InstanceLabel ∈ lpName <$> l →
  sanitized gl (sortLabelPairs l).
Proof.
  intros Hnd Hgl Hinst. unfold sanitized. split; [|split; [|split]].
  - by rewrite sortLabelPairs_perm.
  - intros k v Hk. rewrite sortLabelPairs_perm. by apply Hgl.
  - by rewrite sortLabelPairs_perm.
  - apply sortLabelPairs_sorted.
Qed.

Lemma overwrite_elem_of gl (l : list LabelPair) k v :
  gl !! k = Some v → k ∈ lpName <$> l → mkLabelPair k v ∈ overwrite gl <$> l.
Proof.
  intros Hk Hin. apply list_elem_of_fmap in Hin as (lp & -> & Hlp).
  apply list_elem_of_fmap. exists lp. split; [|done].
  unfold overwrite. by rewrite Hk.
Qed.

(** One round on a metric, the map being empty at its start: the map is
    empty again at the end. *)
Lemma sanitizeMetric_carry gl m : (sanitizeMetric gl ∅ m).2 = ∅.
Proof.
  unfold sanitizeMetric. rewrite fill_from_empty.
  destruct (scanLabels (mLabel m) gl false) as [[[label g'] h'] ex] eqn:Hscan.
  apply scanLabels_state in Hscan. destruct ex.
  - by destruct Hscan as (-> & _).
  - rewrite appendMissing_eq. cbn. apply foldl_delete_all.
Qed.

(** One round leaves a metric with distinct label names sanitized. *)
Lemma sanitizeMetric_post gl m :
  NoDup (lpName <$> mLabel m) →
  sanitized gl (mLabel (sanitizeMetric gl ∅ m).1).
Proof.
  intros Hnd. unfold sanitizeMetric. rewrite fill_from_empty.
  pose proof (scanLabels_out (mLabel m) gl false Hnd) as Hout.
  destruct (scanLabels (mLabel m) gl false) as [[[label g'] h'] ex] eqn:Hscan.
  cbn in Hout. subst label.
  apply scanLabels_state in Hscan. destruct ex.
  - destruct Hscan as (_ & _ & Hkeys & Hinst). cbn. apply sanitized_sort.
    + by rewrite overwrite_names.
    + intros k v Hk. apply overwrite_elem_of; [done|]. apply Hkeys. by rewrite Hk.
    + rewrite overwrite_names. by destruct Hinst.
  - destruct Hscan as (Hg' & Hh' & _). rewrite appendMissing_eq.
    set (extra := (λ '(ln, lv), mkLabelPair ln lv) <$> rangeMap g').
    assert (Hex : lpName <$> extra = (rangeMap g').*1) by apply mk_names.
    assert (Hdisj : ∀ k, k ∈ lpName <$> mLabel m → k ∉ (rangeMap g').*1).
    { intros k Hk Hk2. apply list_elem_of_fmap in Hk2 as ([k' v] & -> & Hkv).
      apply rangeMap_elem_of in Hkv. rewrite Hg' in Hkv. cbn in Hkv.
      by rewrite bool_decide_true in Hkv. }
    assert (Hnd2 : NoDup (lpName <$> (overwrite gl <$> mLabel m) ++ extra)%list).
    { rewrite fmap_app, overwrite_names, Hex. apply NoDup_app.
      split; [done|]. split; [done|]. apply rangeMap_NoDup_fst. }
    assert (Hall : ∀ k v, gl !! k = Some v →
                     mkLabelPair k v ∈ ((overwrite gl <$> mLabel m) ++ extra)%list).
    { intros k v Hk. apply elem_of_app.
      destruct (decide (k ∈ lpName <$> mLabel m)) as [Hin|Hin].
      - left. by apply overwrite_elem_of.
      - right. unfold extra. apply list_elem_of_fmap. exists (k, v). split; [done|].
        apply rangeMap_elem_of. rewrite Hg'. by rewrite bool_decide_false. }
    cbn.
    destruct (h' || bool_decide (InstanceLabel ∈ (rangeMap g').*1)) eqn:Hh2; cbn.
    + apply sanitized_sort; [done..|].
      rewrite fmap_app, overwrite_names, Hex. apply elem_of_app.
      rewrite Hh' in Hh2. cbn in Hh2.
      apply orb_true_iff in Hh2 as [Hi|Hi]; apply bool_decide_eq_true in Hi; tauto.
    + rewrite Hh' in Hh2. cbn in Hh2. apply orb_false_iff in Hh2 as [Hi1 Hi2].
      apply bool_decide_eq_false in Hi1, Hi2.
      apply sanitized_sort.
      * rewrite fmap_app. apply NoDup_app. split; [done|]. split.
        -- intros k Hk Hk2. cbn in Hk2. apply list_elem_of_singleton in Hk2. subst k.
           rewrite fmap_app, overwrite_names, Hex in Hk.
           apply elem_of_app in Hk. tauto.
        -- cbn. apply NoDup_singleton.
      * intros k v Hk. apply elem_of_app. left. by apply Hall.
      * rewrite fmap_app. apply elem_of_app. right. cbn. apply list_elem_of_here.
Qed.

Lemma overwrite_sanitized gl (l : list LabelPair) :
  sanitized gl l → overwrite gl <$> l = l.
Proof.
  intros (Hnd & Hgl & _ & _). rewrite <-(list_fmap_id l) at 2.
  apply list_fmap_ext. intros i lp Hlp. apply list_elem_of_lookup_2 in Hlp.
  unfold overwrite. destruct (gl !! lpName lp) as [lv|] eqn:E; [|done].
  cbn. apply (NoDup_names_inj l); [done| |done|done]. by apply Hgl.
Qed.

(** One round on a metric that is sanitized changes nothing. *)
Lemma sanitizeMetric_fix gl m :
  sanitized gl (mLabel m) → (sanitizeMetric gl ∅ m).1 = m.
Proof.
  intros Hs. pose proof Hs as (Hnd & Hgl & Hinst & Hsorted).
  unfold sanitizeMetric. rewrite fill_from_empty.
  pose proof (scanLabels_out (mLabel m) gl false Hnd) as Hout.
  destruct (scanLabels (mLabel m) gl false) as [[[label g'] h'] ex] eqn:Hscan.
  cbn in Hout. subst label. rewrite overwrite_sanitized in * by done.
  apply scanLabels_state in Hscan. destruct ex.
  - cbn. rewrite sortLabelPairs_sorted_id by done. by destruct m.
  - exfalso. destruct Hscan as (Hg' & Hh' & Hstop). apply Hstop.
    + intros Hnil. rewrite Hnil in Hinst. by apply elem_of_nil in Hinst.
    + split.
      * apply map_eq. intros k. rewrite Hg', lookup_empty.
        destruct (decide (k ∈ lpName <$> mLabel m)) as [Hin|Hin].
        { by rewrite bool_decide_true. }
        rewrite bool_decide_false by done.
        destruct (gl !! k) as [v|] eqn:E; [|done]. exfalso. apply Hin.
        specialize (Hgl k v E). by apply (list_elem_of_fmap_2 lpName) in Hgl.
      * rewrite Hh'. cbn. by apply bool_decide_eq_true.
Qed.

Lemma sanitizeMetrics_fmap gl (ms : list Metric) :
  sanitizeMetrics gl ∅ ms = (λ m, (sanitizeMetric gl ∅ m).1) <$> ms.
Proof.
  induction ms as [|m ms IH]; [done|]. rewrite fmap_cons. cbn [sanitizeMetrics].
  pose proof (sanitizeMetric_carry gl m) as Hc.
  destruct (sanitizeMetric gl ∅ m) as [m' g]. cbn in Hc. subst g.
  by rewrite IH.
Qed.

Lemma sanitizeMetric_names_stable gl m :
  NoDup (lpName <$> mLabel m) →
  (sanitizeMetric gl ∅ (sanitizeMetric gl ∅ m).1).1 = (sanitizeMetric gl ∅ m).1.
Proof. intros Hnd. by apply sanitizeMetric_fix, sanitizeMetric_post. Qed.

(** C9.  Sanitizing is idempotent on a family whose metrics have label
    pairs with pairwise distinct names: after one application the label
    pairs of every metric have distinct names, hold every grouping label
    with the value of the group and an instance label, and are sorted by
    name; a second application returns the same family. *)
Theorem SanitizeLabels_idempotent (f : MetricFamily) (L : gmap string string) :
  Forall (λ m, NoDup (lpName <$> mLabel m)) (fMetric f) →
  SanitizeLabels (SanitizeLabels f L) L = SanitizeLabels f L
  ∧ Forall (λ m, sanitized L (mLabel m)) (fMetric (SanitizeLabels f L)).
Proof.
  intros Hnd. unfold SanitizeLabels, setMetric. cbn.
  rewrite !sanitizeMetrics_fmap. split.
  - f_equal. rewrite <-list_fmap_compose. apply list_fmap_ext.
    intros i m Hm. cbn. apply sanitizeMetric_names_stable.
    rewrite Forall_forall in Hnd. apply Hnd. by eapply list_elem_of_lookup_2.
  - apply Forall_fmap. eapply Forall_impl; [exact Hnd|].
    intros m Hm. cbn. by apply sanitizeMetric_post.
Qed.
End sanitize_facts.

(** ** Equality of [float64]

    [==] on floats is symmetric and transitive (it is not reflexive: a NaN
    differs from itself). *)

Lemma SFeqb_same (a b : spec_float) : SFeqb a b = true ↔ SF_same a b.
Proof.
  unfold SFeqb.
  destruct a as [s1|s1| |s1 m1 e1], b as [s2|s2| |s2 m2 e2]; cbn;
    repeat match goal with s : bool |- _ => destruct s end; cbn;
    try (intuition congruence).
  all: destruct (Z.compare_spec e1 e2) as [He|He|He]; cbn;
    try (split; [congruence|intros (_ & _ & ->); lia]).
  all: fold (Pos.compare m1 m2);
    destruct (Pos.compare_spec m1 m2) as [Hm|Hm|Hm]; cbn;
    try (split; [congruence|intros (_ & -> & _); lia]).
  all: subst; intuition congruence.
Qed.

Lemma float_eqb_sym (x y : float) : PrimFloat.eqb x y = PrimFloat.eqb y x.
Proof.
  apply eq_true_iff_eq. rewrite !FloatAxioms.eqb_spec, !SFeqb_same.
  destruct (Prim2SF x), (Prim2SF y); cbn; intuition congruence.
Qed.

Lemma float_eqb_trans (x y z : float) :
  PrimFloat.eqb x y = true → PrimFloat.eqb y z = true → PrimFloat.eqb x z = true.
Proof.
  rewrite !FloatAxioms.eqb_spec, !SFeqb_same.
  destruct (Prim2SF x), (Prim2SF y), (Prim2SF z); cbn; intuition congruence.
Qed.

(** ** Merging buckets *)

Lemma floatMap_insert_fresh {V} (mm : floatMap V) k (v : V) :
  Forall (λ e, PrimFloat.eqb e.1 k = false) mm →
  floatMap_insert mm k v = (mm ++ [(k, v)])%list.
Proof.
  induction mm as [|[k' v'] mm IH]; intros Hf; [done|].
  apply Forall_cons in Hf as [Hk Hf]. cbn in *. rewrite Hk. by rewrite IH.
Qed.

Lemma indexBuckets_distinct (mm : floatMap nat) i (l : list Bucket) :
  Forall (λ e, Forall (λ b, PrimFloat.eqb e.1 (bUpperBound b) = false) l) mm →
  distinctBounds l →
  indexBuckets mm i l = (mm ++ zip (bUpperBound <$> l) (seq i (length l)))%list.
Proof.
  revert mm i. induction l as [|a l IH]; intros mm i Hmm Hd.
  { cbn. by rewrite app_nil_r. }
  inversion Hd as [|? ? Ha Hl]; subst. cbn [indexBuckets].
  rewrite floatMap_insert_fresh.
  - rewrite IH; [by rewrite <-app_assoc| |done].
    apply Forall_app. split.
    + eapply Forall_impl; [exact Hmm|]. intros e He. by apply Forall_cons in He as [_ ?].
    + by apply Forall_singleton.
  - eapply Forall_impl; [exact Hmm|]. intros e He. by apply Forall_cons in He as [? _].
Qed.

Lemma floatMap_lookup_zip_Some (l : list Bucket) n k i :
  floatMap_lookup (zip (bUpperBound <$> l) (seq n (length l))) k = Some i →
  ∃ a, l !! (i - n)%nat = Some a ∧ (n ≤ i)%nat
       ∧ PrimFloat.eqb (bUpperBound a) k = true.
Proof.
  revert n. induction l as [|a l IH]; intros n; [done|].
  unfold floatMap_lookup. cbn. destruct (PrimFloat.eqb (bUpperBound a) k) eqn:E.
  - cbn. intros [= <-]. exists a. rewrite Nat.sub_diag. done.
  - intros Hl. apply IH in Hl as (b & Hb & Hn & Hk). exists b. split; [|split; [lia|done]].
    replace (i - n)%nat with (S (i - S n)) by lia. done.
Qed.

Lemma floatMap_lookup_zip_None (l : list Bucket) n k :
  floatMap_lookup (zip (bUpperBound <$> l) (seq n (length l))) k = None →
  Forall (λ a, PrimFloat.eqb (bUpperBound a) k = false) l.
Proof.
  revert n. induction l as [|a l IH]; intros n; [done|].
  unfold floatMap_lookup. cbn. destruct (PrimFloat.eqb (bUpperBound a) k) eqn:E; [done|].
  intros Hl. apply Forall_cons. split; [done|]. by apply (IH (S n)).
Qed.

(** Two buckets of a list with distinct bounds that have the same bound are
    one bucket. *)
Lemma distinctBounds_unique (l : list Bucket) a b :
  distinctBounds l → a ∈ l → b ∈ l →
  PrimFloat.eqb (bUpperBound a) (bUpperBound b) = true → a = b.
Proof.
  induction l as [|x l IH]; intros Hd Ha Hb Hab; [by apply elem_of_nil in Ha|].
  inversion Hd as [|? ? Hx Hl]; subst. rewrite Forall_forall in Hx.
  apply elem_of_cons in Ha as [->|Ha]; apply elem_of_cons in Hb as [->|Hb].
  - done.
  - apply Hx in Hb. congruence.
  - apply Hx in Ha. rewrite float_eqb_sym in Ha. congruence.
  - by apply IH.
Qed.

Lemma distinctBounds_lookup (l : list Bucket) i j a b :
  distinctBounds l → l !! i = Some a → l !! j = Some b →
  PrimFloat.eqb (bUpperBound a) (bUpperBound b) = true → i = j.
Proof.
  revert i j. induction l as [|x l IH]; intros i j Hd Ha Hb Hab; [done|].
  inversion Hd as [|? ? Hx Hl]; subst. rewrite Forall_forall in Hx.
  destruct i as [|i], j as [|j]; cbn in *; simplify_eq.
  - done.
  - apply list_elem_of_lookup_2, Hx in Hb. congruence.
  - apply list_elem_of_lookup_2, Hx in Ha.
    rewrite float_eqb_sym in Ha. congruence.
  - f_equal. by eapply IH.
Qed.

Lemma distinctBounds_app_l (l1 l2 : list Bucket) :
  distinctBounds (l1 ++ l2) → distinctBounds l1.
Proof.
  induction l1 as [|a l1 IH]; intros Hd; [constructor|].
  inversion Hd as [|? ? Ha Hl]; subst. constructor; [|by apply IH].
  by apply Forall_app in Ha as [? _].
Qed.

Lemma find_snoc {A} (P : A → bool) (l : list A) (x : A) :
  List.find P (l ++ [x]) =
    match List.find P l with
    | Some y => Some y
    | None => if P x then Some x else None
    end.
Proof.
  induction l as [|y l IH]; cbn; [done|]. destruct (P y); [done|apply IH].
Qed.

Lemma bucketIndex_distinct (b1 : list Bucket) :
  distinctBounds b1 →
  bucketIndex b1 = zip (bUpperBound <$> b1) (seq 0 (length b1)).
Proof.
  intros Hd. unfold bucketIndex. by rewrite indexBuckets_distinct.
Qed.

Lemma mergedWith_snoc_other p c a :
  PrimFloat.eqb (bUpperBound a) (bUpperBound c) = false →
  mergedWith (p ++ [c]) a = mergedWith p a.
Proof.
  intros Hac. unfold mergedWith. rewrite find_snoc, Hac.
  by destruct (List.find _ p).
Qed.

Lemma freshFor_false b1 c a :
  a ∈ b1 → PrimFloat.eqb (bUpperBound a) (bUpperBound c) = true →
  freshFor b1 c = false.
Proof.
  intros Ha Hac. apply not_true_iff_false. intros Hf.
  unfold freshFor in Hf. rewrite forallb_forall in Hf.
  apply list_elem_of_In, Hf in Ha. by rewrite Hac in Ha.
Qed.

Lemma freshFor_true b1 c :
  Forall (λ a, PrimFloat.eqb (bUpperBound a) (bUpperBound c) = false) b1 →
  freshFor b1 c = true.
Proof.
  intros Hf. unfold freshFor. apply forallb_forall. intros a Ha.
  rewrite Forall_forall in Hf. apply list_elem_of_In, Hf in Ha. by rewrite Ha.
Qed.

(** One round of the loop over the buckets of the second list. *)
Lemma mergeBucket_step (b1 p : list Bucket) (c : Bucket) :
  distinctBounds b1 → distinctBounds (p ++ [c]) →
  mergeBucket (bucketIndex b1)
    ((mergedWith p <$> b1) ++ List.filter (freshFor b1) p)%list c
  = ((mergedWith (p ++ [c]) <$> b1) ++ List.filter (freshFor b1) (p ++ [c]))%list.
Proof.
  intros Hd1 Hd2. unfold mergeBucket. rewrite bucketIndex_distinct by done.
  rewrite List.filter_app. cbn [List.filter].
  destruct (floatMap_lookup _ (bUpperBound c)) as [i|] eqn:Hl.
  - apply floatMap_lookup_zip_Some in Hl as (a0 & Ha0 & _ & Hac).
    rewrite Nat.sub_0_r in Ha0.
    rewrite (freshFor_false b1 c a0) by (done || by eapply list_elem_of_lookup_2).
    rewrite app_nil_r. rewrite alter_app_l by
      (rewrite length_fmap; by eapply lookup_lt_Some).
    f_equal. apply list_eq. intros j. rewrite list_lookup_alter, !list_lookup_fmap.
    destruct (decide (i = j)) as [<-|Hij].
    + rewrite Ha0. cbn. f_equal. unfold mergedWith. rewrite find_snoc, Hac.
      destruct (List.find _ p) as [c'|] eqn:Hf; [|done]. exfalso.
      apply find_some in Hf as [Hin Hc'].
      assert (c' = c) as ->.
      { apply (distinctBounds_unique (p ++ [c])); [done|..].
        - apply elem_of_app. left. by apply list_elem_of_In.
        - apply elem_of_app. right. apply list_elem_of_here.
        - eapply float_eqb_trans; [|exact Hac]. by rewrite float_eqb_sym. }
      apply list_elem_of_In, list_elem_of_lookup in Hin as [n Hn].
      assert (Hlen : (n < length p)%nat) by by eapply lookup_lt_Some.
      assert (n = length p); [|lia].
      eapply (distinctBounds_lookup (p ++ [c])); [done| | |].
      * by rewrite lookup_app_l.
      * rewrite lookup_app_r by lia. by rewrite Nat.sub_diag.
      * eapply float_eqb_trans; [|exact Hac]. by rewrite float_eqb_sym.
    + destruct (b1 !! j) as [a|] eqn:Ha; [|done]. cbn. f_equal. symmetry.
      apply mergedWith_snoc_other. apply not_true_iff_false. intros Hjc.
      apply Hij. eapply (distinctBounds_lookup b1); [done..|].
      eapply float_eqb_trans; [exact Hac|]. by rewrite float_eqb_sym.
  - apply floatMap_lookup_zip_None in Hl.
    rewrite freshFor_true by done. rewrite app_assoc. f_equal. f_equal.
    apply list_fmap_ext. intros j a Ha. symmetry. apply mergedWith_snoc_other.
    rewrite Forall_forall in Hl. apply Hl. by eapply list_elem_of_lookup_2.
Qed.

(** The merged list: the buckets of the first list, each with the count of
    its partner added, followed by the buckets of the second list that have
    no partner. *)
Lemma mergeBuckets_closed (b1 b2 : list Bucket) :
  distinctBounds b1 → distinctBounds b2 →
  mergeBuckets b1 b2 = ((mergedWith b2 <$> b1) ++ List.filter (freshFor b1) b2)%list.
Proof.
  intros Hd1. unfold mergeBuckets. induction b2 as [|c p IH] using rev_ind; intros Hd2.
  - cbn. rewrite app_nil_r. rewrite <-(list_fmap_id b1) at 1.
    by apply list_fmap_ext.
  - rewrite foldl_app. cbn [foldl]. rewrite IH by by eapply distinctBounds_app_l.
    by apply mergeBucket_step.
Qed.

Lemma mergedWith_bound b2 a : bUpperBound (mergedWith b2 a) = bUpperBound a.
Proof. unfold mergedWith. by destruct (List.find _ b2). Qed.

Lemma freshFor_spec b1 c :
  freshFor b1 c = true ↔ ¬ hasBound b1 (bUpperBound c).
Proof.
  split.
  - intros Hf (a & Ha & Hac). by rewrite (freshFor_false b1 c a) in Hf.
  - intros Hn. apply freshFor_true, Forall_forall. intros a Ha.
    apply not_true_iff_false. intros Hac. apply Hn. by exists a.
Qed.

Lemma freshFor_false_inv b1 c :
  freshFor b1 c = false → hasBound b1 (bUpperBound c).
Proof.
  induction b1 as [|a b1 IH]; [done|]. cbn. intros Hf.
  apply andb_false_iff in Hf as [Ha|Hr].
  - exists a. split; [apply list_elem_of_here|]. by apply negb_false_iff in Ha.
  - destruct (IH Hr) as (a' & Ha' & Hac).
    exists a'. split; [by apply list_elem_of_further|done].
Qed.

Lemma ForallOrdPairs_app_intro {A} (R : A → A → Prop) (l1 l2 : list A) :
  ForallOrdPairs R l1 → ForallOrdPairs R l2 →
  (∀ a b, a ∈ l1 → b ∈ l2 → R a b) →
  ForallOrdPairs R (l1 ++ l2).
Proof.
  intros H1 H2 H12. induction H1 as [|a l1 Ha Hl1 IH]; [done|].
  cbn. constructor.
  - apply Forall_app. split; [done|]. apply Forall_forall. intros b Hb.
    apply H12; [apply list_elem_of_here|done].
  - apply IH. intros x y Hx Hy. apply H12; [by apply list_elem_of_further|done].
Qed.

Lemma distinctBounds_fmap (f : Bucket → Bucket) (l : list Bucket) :
  (∀ a, bUpperBound (f a) = bUpperBound a) →
  distinctBounds l → distinctBounds (f <$> l).
Proof.
  intros Hf Hd. induction Hd as [|a l Ha Hl IH]; [constructor|].
  cbn. constructor; [|done]. apply Forall_fmap. eapply Forall_impl; [exact Ha|].
  intros b Hb. cbn. by rewrite !Hf.
Qed.

Lemma distinctBounds_filter (P : Bucket → bool) (l : list Bucket) :
  distinctBounds l → distinctBounds (List.filter P l).
Proof.
  intros Hd. induction Hd as [|a l Ha Hl IH]; [constructor|].
  cbn. destruct (P a); [|done]. constructor; [|done].
  apply Forall_forall. intros b Hb. apply list_elem_of_In, filter_In in Hb as [Hb _].
  rewrite Forall_forall in Ha. by apply Ha, list_elem_of_In.
Qed.

(** What merging two bucket lists with pairwise distinct bounds gives. *)
Lemma mergeBuckets_spec (b1 b2 : list Bucket) :
  distinctBounds b1 → distinctBounds b2 →
  let r := mergeBuckets b1 b2 in
  (∀ x, hasBound r x ↔ hasBound b1 x ∨ hasBound b2 x)
  ∧ distinctBounds r
  ∧ (∀ a c, a ∈ b1 → c ∈ b2 →
       PrimFloat.eqb (bUpperBound a) (bUpperBound c) = true →
       mkBucket (add64 (bCumulativeCount a) (bCumulativeCount c)) (bUpperBound a) ∈ r)
  ∧ (∀ a, a ∈ b1 → ¬ hasBound b2 (bUpperBound a) → a ∈ r)
  ∧ (∀ c, c ∈ b2 → ¬ hasBound b1 (bUpperBound c) → c ∈ r).
Proof.
  intros Hd1 Hd2 r. unfold r. rewrite mergeBuckets_closed by done. clear r.
  assert (Hfresh : ∀ c, c ∈ List.filter (freshFor b1) b2 ↔
                         c ∈ b2 ∧ ¬ hasBound b1 (bUpperBound c)).
  { intros c. rewrite list_elem_of_In, filter_In, <-list_elem_of_In.
    by rewrite freshFor_spec. }
  split; [|split; [|split; [|split]]].
  - intros x. split.
    + intros (b & Hb & Hx). apply elem_of_app in Hb as [Hb|Hb].
      * left. apply list_elem_of_fmap in Hb as (a & -> & Ha).
        exists a. split; [done|]. by rewrite mergedWith_bound in Hx.
      * right. apply Hfresh in Hb as [Hb _]. by exists b.
    + intros [(a & Ha & Hx)|(c & Hc & Hx)].
      * exists (mergedWith b2 a). split.
        -- apply elem_of_app. left. by apply list_elem_of_fmap_2.
        -- by rewrite mergedWith_bound.
      * destruct (freshFor b1 c) eqn:Hf.
        -- exists c. split; [|done]. apply elem_of_app. right.
           apply Hfresh. split; [done|]. by apply freshFor_spec.
        -- apply freshFor_false_inv in Hf as Hh.
           destruct Hh as (a & Ha & Hac). exists (mergedWith b2 a). split.
           ++ apply elem_of_app. left. by apply list_elem_of_fmap_2.
           ++ rewrite mergedWith_bound. by eapply float_eqb_trans.
  - apply ForallOrdPairs_app_intro.
    + apply distinctBounds_fmap; [apply mergedWith_bound|done].
    + by apply distinctBounds_filter.
    + intros a c Ha Hc. apply list_elem_of_fmap in Ha as (a0 & -> & Ha0).
      apply Hfresh in Hc as [_ Hc]. rewrite mergedWith_bound.
      apply not_true_iff_false. intros Hac. apply Hc. by exists a0.
  - intros a c Ha Hc Hac. apply elem_of_app. left.
    apply list_elem_of_fmap. exists a. split; [|done].
    unfold mergedWith. destruct (List.find _ b2) as [c'|] eqn:Hf.
    + apply find_some in Hf as [Hin Hc'].
      assert (c' = c) as ->; [|done].
      apply (distinctBounds_unique b2); [done|by apply list_elem_of_In|done|].
      eapply float_eqb_trans; [|exact Hac]. by rewrite float_eqb_sym.
    + eapply find_none in Hf; [|by apply list_elem_of_In]. cbn in Hf. congruence.
  - intros a Ha Hn. apply elem_of_app. left.
    apply list_elem_of_fmap. exists a. split; [|done].
    unfold mergedWith. destruct (List.find _ b2) as [c'|] eqn:Hf; [|done].
    exfalso. apply find_some in Hf as [Hin Hc']. apply Hn. exists c'.
    split; [by apply list_elem_of_In|]. by rewrite float_eqb_sym.
  - intros c Hc Hn. apply elem_of_app. right. by apply Hfresh.
Qed.

Lemma add64_exact (a b : Z) :
  (0 ≤ a)%Z → (0 ≤ b)%Z → (a + b < 2 ^ 64)%Z → add64 a b = (a + b)%Z.
Proof. intros Ha Hb Hab. unfold add64. apply Z.mod_small. lia. Qed.

(** C8.  Merging the histogram metric [m2] into [m1], the bucket bounds of
    each being pairwise distinct, succeeds and gives [m1] with a histogram
    whose sample count and sample sum are the sums of the two (in [uint64]
    and [float64] arithmetic), and whose buckets are as follows: a bound
    occurs among them exactly when it occurs in one of the inputs, and it
    occurs once; a bound present in both inputs carries the sum of the two
    cumulative counts; a bucket whose bound is present in one input only is
    kept as it is.  Bounds are compared with [==] on [float64]. *)
Theorem mergeMetrics_histogram (m1 m2 : Metric) (h1 h2 : Histogram) :
  mHistogram m1 = Some h1 → mHistogram m2 = Some h2 →
  distinctBounds (hBucket h1) → distinctBounds (hBucket h2) →
  ∃ h : Histogram,
    mergeMetrics HISTOGRAM m1 m2 = Ok (setHistogram m1 h)
    ∧ hSampleCount h = add64 (hSampleCount h1) (hSampleCount h2)
    ∧ hSampleSum h = (hSampleSum h1 + hSampleSum h2)%float
    ∧ (∀ x, hasBound (hBucket h) x ↔ hasBound (hBucket h1) x ∨ hasBound (hBucket h2) x)
    ∧ distinctBounds (hBucket h)
    ∧ (∀ a c, a ∈ hBucket h1 → c ∈ hBucket h2 →
         PrimFloat.eqb (bUpperBound a) (bUpperBound c) = true →
         mkBucket (add64 (bCumulativeCount a) (bCumulativeCount c)) (bUpperBound a)
           ∈ hBucket h)
    ∧ (∀ a, a ∈ hBucket h1 → ¬ hasBound (hBucket h2) (bUpperBound a) → a ∈ hBucket h)
    ∧ (∀ c, c ∈ hBucket h2 → ¬ hasBound (hBucket h1) (bUpperBound c) → c ∈ hBucket h).
Proof.
  intros Hm1 Hm2 Hd1 Hd2. exists (mergeHistograms h1 h2).
  unfold mergeMetrics. rewrite Hm1, Hm2. split; [done|]. split; [done|]. split; [done|].
  cbn [hBucket mergeHistograms]. by apply mergeBuckets_spec.
Qed.

(** The histograms of the repository's merge test: count 2, sum 13, one
    bucket up to 20 holding 13; and count 3, sum 40, buckets up to 20
    holding 13 and up to 40 holding 27. *)
Lemma mergeMetrics_histogram_witness :
  let hA := mkHistogram 2 13 [mkBucket 13 20] in
  let hB := mkHistogram 3 40 [mkBucket 13 20; mkBucket 27 40] in
  let mA := mkMetric [] None None None None (Some hA) None in
  let mB := mkMetric [] None None None None (Some hB) None in
  distinctBounds (hBucket hA) ∧ distinctBounds (hBucket hB)
  ∧ ∃ h, mergeMetrics HISTOGRAM mA mB = Ok (setHistogram mA h)
         ∧ hSampleCount h = 5 ∧ hSampleSum h = 53%float
         ∧ mkBucket 26 20 ∈ hBucket h ∧ mkBucket 27 40 ∈ hBucket h.
Proof.
  intros hA hB mA mB.
  assert (HdA : distinctBounds (hBucket hA)) by (repeat constructor).
  assert (HdB : distinctBounds (hBucket hB)) by (repeat constructor).
  split; [exact HdA|]. split; [exact HdB|].
  destruct (mergeMetrics_histogram mA mB hA hB eq_refl eq_refl HdA HdB)
    as (h & Heq & Hc & Hs & _ & _ & Hboth & _ & Hright).
  exists h. split; [exact Heq|]. split; [exact Hc|]. split; [exact Hs|]. split.
  - apply (Hboth (mkBucket 13 20) (mkBucket 13 20)); [left|left|reflexivity].
  - apply (Hright (mkBucket 27 40)); [right; left|].
    intros (b & Hb & Hx). apply list_elem_of_singleton in Hb. subst b.
    vm_compute in Hx. discriminate Hx.
Defined.

(** ** The merge and the request

    The store side of the merge that keeps track of the request is the
    merge of the first part, and the request side is the request short of
    bucket counts. *)

Lemma mergeBucketShared_fold mm j (b2 : list Bucket) :
  ∀ k b1 owner visited,
    (foldl (mergeBucketShared mm j) (b1, owner, visited)
       (imap (λ i b2Bucket, (k + i, b2Bucket)%nat) b2)).1.1
    = foldl (mergeBucket mm) b1 b2.
Proof.
  induction b2 as [|c b2 IH]; intros k b1 owner visited; [done|].
  cbn [imap foldl].
  rewrite (imap_ext _ (λ i b2Bucket, (S k + i, b2Bucket)%nat))
    by (intros i x _; cbn; f_equal; lia).
  unfold mergeBucketShared at 2, mergeBucket at 2.
  destruct (floatMap_lookup mm (bUpperBound c)); apply IH.
Qed.

Lemma mergeBucketsShared_store b1 owner j visited b2 :
  (mergeBucketsShared b1 owner j visited b2).1.1 = mergeBuckets b1 b2.
Proof. apply (mergeBucketShared_fold _ _ _ 0%nat). Qed.

Lemma mergeMetricsShared_store mt m1 owner j visited m2 :
  match mergeMetricsShared mt m1 owner j visited m2 with
  | Ok (m, _, _) => mergeMetrics mt m1 m2 = Ok m
  | Panic => mergeMetrics mt m1 m2 = Panic
  end.
Proof.
  destruct mt;
    try (unfold mergeMetricsShared; by destruct (mergeMetrics _ m1 m2)).
  cbn. destruct (mHistogram m1) as [hist1|], (mHistogram m2) as [hist2|]; try done.
  pose proof (mergeBucketsShared_store (hBucket hist1) owner j visited (hBucket hist2)) as Hb.
  destruct (mergeBucketsShared _ _ _ _ _) as [[b owner'] visited']. cbn in *.
  unfold mergeHistograms. by rewrite Hb.
Qed.

Section shared_facts.
Context `{GoEnv}.

Lemma mergeFamilyMetricsShared_store mt mm (rest : list Metric) :
  ∀ f1Metric owners visited,
    storeSide (mergeFamilyMetricsShared mt mm f1Metric owners visited rest)
    = mergeFamilyMetrics mt mm f1Metric rest.
Proof.
  induction rest as [|m2 rest IH]; intros f1Metric owners visited; [done|].
  cbn [mergeFamilyMetricsShared mergeFamilyMetrics].
  destruct (mm !! _) as [i|]; [|apply IH].
  destruct (f1Metric !! i) as [m1|]; [|done].
  pose proof (mergeMetricsShared_store mt m1 (ownersOf owners i m1) (length visited)
                visited m2) as Hm.
  destruct (mergeMetricsShared _ _ _ _ _ _) as [[[m owner'] visited']|];
    rewrite Hm; cbn; [apply IH|done].
Qed.

Lemma mergeFamiliesShared_store (f1 f2 : MetricFamily) :
  match mergeFamiliesShared f1 f2 with
  | Ok (inl e) => mergeFamilies f1 f2 = Ok (inl e)
  | Ok (inr (f1', _)) => mergeFamilies f1 f2 = Ok (inr f1')
  | Panic => mergeFamilies f1 f2 = Panic
  end.
Proof.
  unfold mergeFamiliesShared, mergeFamilies.
  destruct (bool_decide (fType f1 ≠ fType f2)); [done|].
  rewrite <- (mergeFamilyMetricsShared_store _ _ _ _ ∅ []).
  by destruct (mergeFamilyMetricsShared _ _ _ _ _ _) as [[ms visited]|].
Qed.

Lemma mergeGroupFamiliesShared_store (todo : list (string * MetricFamily)) :
  ∀ g1Families g2Families,
    storeSide (mergeGroupFamiliesShared todo g1Families g2Families)
    = mergeGroupFamilies todo g1Families.
Proof.
  induction todo as [|[key g2Family] todo IH]; intros g1Families g2Families; [done|].
  cbn [mergeGroupFamiliesShared mergeGroupFamilies].
  destruct (g1Families !! key) as [g1Family|]; [|apply IH].
  pose proof (mergeFamiliesShared_store g1Family g2Family) as Hm.
  destruct (mergeFamiliesShared g1Family g2Family) as [[e|[f1 f2]]|];
    rewrite Hm; cbn; [apply IH..|done].
Qed.

Lemma processWriteRequestShared_store (ms : MetricStorage) (wr : WriteRequest) :
  storeSide (processWriteRequestShared ms wr) = processWriteRequest ms wr.
Proof.
  unfold processWriteRequestShared, processWriteRequest.
  destruct (wrMetricFamilies wr) as [fams|]; [|done].
  destruct (metricGroups ms !! _) as [prev|]; [|done].
  destruct (wrReplace wr); [done|].
  unfold mergeGroupsShared, mergeGroups.
  rewrite <- (mergeGroupFamiliesShared_store _ _ (mgMetricFamilies
                (mkMetricGroup (wrLabels wr) fams))).
  by destruct (mergeGroupFamiliesShared _ _ _) as [[fams1 fams2]|].
Qed.

Lemma forgetCount_alter n i (l : list Bucket) :
  forgetCount <$> alter (addCumulativeCount n) i l = forgetCount <$> l.
Proof.
  rewrite (list_fmap_alter forgetCount _ id) by by apply Forall_true.
  apply list_alter_id. done.
Qed.

Lemma forgetCounts_addToRequestBucket n j i (visited : list Metric) :
  forgetCountsMetric <$> addToRequestBucket n j i visited = forgetCountsMetric <$> visited.
Proof.
  unfold addToRequestBucket.
  rewrite (list_fmap_alter forgetCountsMetric _ id); [by apply list_alter_id|].
  apply Forall_true. intros m. unfold forgetCountsMetric.
  destruct (mHistogram m) as [hist|] eqn:Hm; cbn; [|by rewrite Hm].
  by rewrite forgetCount_alter.
Qed.

Lemma forgetCounts_mergeBucketShared mm j (b2 : list (nat * Bucket)) :
  ∀ b1 owner visited,
    forgetCountsMetric <$> (foldl (mergeBucketShared mm j) (b1, owner, visited) b2).2
    = forgetCountsMetric <$> visited.
Proof.
  induction b2 as [|[i c] b2 IH]; intros b1 owner visited; [done|].
  cbn [foldl]. unfold mergeBucketShared at 2.
  destruct (floatMap_lookup mm (bUpperBound c)) as [q|]; [|apply IH].
  rewrite IH. destruct (owner !! q) as [[[j' i']|]|]; [|done..].
  apply forgetCounts_addToRequestBucket.
Qed.

Lemma forgetCounts_mergeMetricsShared mt m1 owner j visited m2 m owner' visited' :
  mergeMetricsShared mt m1 owner j visited m2 = Ok (m, owner', visited') →
  forgetCountsMetric <$> visited' = forgetCountsMetric <$> visited.
Proof.
  destruct mt;
    try (unfold mergeMetricsShared;
         destruct (mergeMetrics _ m1 m2); cbn; [by intros [= _ _ <-]|done]).
  cbn. destruct (mHistogram m1) as [hist1|], (mHistogram m2) as [hist2|]; try done.
  pose proof (forgetCounts_mergeBucketShared (bucketIndex (hBucket hist1)) j
                (imap (λ i b2Bucket, (i, b2Bucket)) (hBucket hist2))
                (hBucket hist1) owner visited) as Hv.
  fold (mergeBucketsShared (hBucket hist1) owner j visited (hBucket hist2)) in Hv.
  destruct (mergeBucketsShared _ _ _ _ _) as [[b o] v]. by intros [= _ _ <-].
Qed.

Lemma forgetCounts_mergeFamilyMetricsShared mt mm (rest : list Metric) :
  ∀ f1Metric owners visited ms visited',
    mergeFamilyMetricsShared mt mm f1Metric owners visited rest = Ok (ms, visited') →
    forgetCountsMetric <$> visited' = forgetCountsMetric <$> (visited ++ rest)%list.
Proof.
  induction rest as [|m2 rest IH]; intros f1Metric owners visited ms visited'.
  { intros [= _ <-]. by rewrite app_nil_r. }
  cbn [mergeFamilyMetricsShared].
  destruct (mm !! _) as [i|].
  - destruct (f1Metric !! i) as [m1|]; [|done].
    destruct (mergeMetricsShared _ _ _ _ _ _) as [[[m owner'] v]|] eqn:Hm; [|done].
    cbn. intros Hrest%IH. rewrite Hrest, !fmap_app.
    rewrite (forgetCounts_mergeMetricsShared _ _ _ _ _ _ _ _ _ Hm).
    by rewrite <- app_assoc.
  - intros Hrest%IH. by rewrite Hrest, <- app_assoc.
Qed.

Lemma forgetCounts_mergeFamiliesShared (f1 f2 f1' f2' : MetricFamily) :
  mergeFamiliesShared f1 f2 = Ok (inr (f1', f2')) → forgetCounts f2' = forgetCounts f2.
Proof.
  unfold mergeFamiliesShared. destruct (bool_decide _); [done|].
  destruct (mergeFamilyMetricsShared _ _ _ _ _ _) as [[ms visited]|] eqn:Hm; [|done].
  intros [= _ <-]. unfold forgetCounts. cbn.
  by rewrite (forgetCounts_mergeFamilyMetricsShared _ _ _ _ _ _ _ _ Hm).
Qed.

Lemma forgetCounts_mergeGroupFamiliesShared (todo : list (string * MetricFamily)) :
  ∀ g1Families g2Families fams1 fams2,
    (∀ key f, (key, f) ∈ todo →
       ∃ f', g2Families !! key = Some f' ∧ forgetCounts f' = forgetCounts f) →
    mergeGroupFamiliesShared todo g1Families g2Families = Ok (fams1, fams2) →
    forgetCounts <$> fams2 = forgetCounts <$> g2Families.
Proof.
  induction todo as [|[key g2Family] todo IH];
    intros g1Families g2Families fams1 fams2 Htodo; [by intros [= _ <-]|].
  cbn [mergeGroupFamiliesShared].
  assert (Hrest : ∀ key f, (key, f) ∈ todo →
            ∃ f', g2Families !! key = Some f' ∧ forgetCounts f' = forgetCounts f).
  { intros k f Hin. apply Htodo. by right. }
  destruct (g1Families !! key) as [g1Family|]; [|by apply IH].
  destruct (mergeFamiliesShared g1Family g2Family) as [[e|[f1 f2]]|] eqn:Hm;
    cbn; [by apply IH| |done].
  apply forgetCounts_mergeFamiliesShared in Hm.
  destruct (Htodo key g2Family) as (f' & Hf' & Heq); [by left|].
  intros Hres. apply IH in Hres.
  - rewrite Hres, fmap_insert. apply insert_id.
    rewrite lookup_fmap, Hf'. cbn. congruence.
  - intros k f Hin. destruct (decide (k = key)) as [->|Hne].
    + destruct (Hrest _ _ Hin) as (f0 & Hf0 & Hf0eq).
      exists f2. rewrite lookup_insert_eq. split; [done|]. congruence.
    + rewrite lookup_insert_ne by done. by apply Hrest.
Qed.

Lemma setMetricFamilies_same (wr : WriteRequest) fams :
  wrMetricFamilies wr = Some fams → setMetricFamilies wr fams = wr.
Proof. destruct wr. cbn. by intros ->. Qed.

Lemma processWriteRequestShared_request (ms ms' : MetricStorage) (wr wr' : WriteRequest) :
  processWriteRequestShared ms wr = Ok (ms', wr') →
  match wrMetricFamilies wr with
  | None => wr' = wr
  | Some fams =>
      ∃ fams', wr' = setMetricFamilies wr fams'
               ∧ forgetCounts <$> fams' = forgetCounts <$> fams
  end.
Proof.
  unfold processWriteRequestShared.
  destruct (wrMetricFamilies wr) as [fams|] eqn:Hfams; [|by intros [= _ <-]].
  assert (Hsame : ∀ ms0, Ok (ms0, wr) = Ok (ms', wr') →
            ∃ fams', wr' = setMetricFamilies wr fams'
                     ∧ forgetCounts <$> fams' = forgetCounts <$> fams).
  { intros ms0 [= _ <-]. exists fams. by rewrite setMetricFamilies_same. }
  destruct (metricGroups ms !! _) as [prev|]; [|apply Hsame].
  destruct (wrReplace wr); [apply Hsame|].
  unfold mergeGroupsShared. cbn [mgMetricFamilies mgLabels].
  destruct (mergeGroupFamiliesShared _ _ _) as [[fams1 fams2]|] eqn:Hm; [|done].
  cbn. intros [= _ <-]. exists fams2. split; [done|].
  apply (forgetCounts_mergeGroupFamiliesShared _ _ _ _ _) in Hm; [done|].
  intros key f Hin%rangeMap_elem_of. eauto.
Qed.


End shared_facts.

(** ** The validator *)

Section validator_facts.
Context `{GoEnv}.

Lemma conflictInGroups_spec f2 (groups : list (string * MetricGroup)) :
  match conflictInGroups f2 groups with
  | Some err =>
      ∃ gk group f1, (gk, group) ∈ groups
        ∧ mgMetricFamilies group !! fName f2 = Some f1 ∧ fType f1 ≠ fType f2
        ∧ err = TypeConflict (fName f1) (fType f1) (fType f2)
  | None =>
      ∀ gk group f1, (gk, group) ∈ groups →
        mgMetricFamilies group !! fName f2 = Some f1 → fType f1 = fType f2
  end.
Proof.
  induction groups as [|[gk group] rest IH]; cbn.
  { intros gk group f1 Hin. by apply elem_of_nil in Hin. }
  destruct (mgMetricFamilies group !! fName f2) as [f1|] eqn:Hf1.
  - case_bool_decide as Ht.
    + exists gk, group, f1. split; [apply list_elem_of_here|done].
    + destruct (conflictInGroups f2 rest) as [err|].
      * destruct IH as (gk' & g' & f1' & Hin & ?). exists gk', g', f1'.
        split; [by apply list_elem_of_further|done].
      * intros gk' g' f1' Hin Hl. apply elem_of_cons in Hin as [[= -> ->]|Hin].
        -- rewrite Hf1 in Hl. injection Hl as <-.
           by destruct (decide (fType f1 = fType f2)).
        -- by eapply IH.
  - destruct (conflictInGroups f2 rest) as [err|].
    + destruct IH as (gk' & g' & f1' & Hin & ?). exists gk', g', f1'.
      split; [by apply list_elem_of_further|done].
    + intros gk' g' f1' Hin Hl. apply elem_of_cons in Hin as [[= -> ->]|Hin].
      * by rewrite Hf1 in Hl.
      * by eapply IH.
Qed.

Lemma conflictInFamilies_spec (fams : list (string * MetricFamily))
    (groups : list (string * MetricGroup)) :
  match conflictInFamilies fams groups with
  | Some err =>
      ∃ k f2 gk group f1, (k, f2) ∈ fams ∧ (gk, group) ∈ groups
        ∧ mgMetricFamilies group !! fName f2 = Some f1 ∧ fType f1 ≠ fType f2
        ∧ err = TypeConflict (fName f1) (fType f1) (fType f2)
  | None =>
      ∀ k f2 gk group f1, (k, f2) ∈ fams → (gk, group) ∈ groups →
        mgMetricFamilies group !! fName f2 = Some f1 → fType f1 = fType f2
  end.
Proof.
  induction fams as [|[k f2] rest IH]; cbn.
  { intros k f2 gk group f1 Hin. by apply elem_of_nil in Hin. }
  pose proof (conflictInGroups_spec f2 groups) as Hg.
  destruct (conflictInGroups f2 groups) as [err|].
  - destruct Hg as (gk & group & f1 & ?). exists k, f2, gk, group, f1.
    split; [apply list_elem_of_here|done].
  - destruct (conflictInFamilies rest groups) as [err|].
    + destruct IH as (k' & f2' & gk & group & f1 & Hin & ?).
      exists k', f2', gk, group, f1. split; [by apply list_elem_of_further|done].
    + intros k' f2' gk group f1 Hin Hing Hl.
      apply elem_of_cons in Hin as [[= -> ->]|Hin]; [by eapply Hg|by eapply IH].
Qed.

(** The two loops find a conflict exactly when there is one, and then the
    error is a type conflict. *)
Lemma conflict_found ms fams :
  match conflictInFamilies (rangeMap fams) (rangeMap (metricGroups ms)) with
  | Some err => typeConflict ms fams ∧ ∃ n t1 t2, err = TypeConflict n t1 t2 ∧ t1 ≠ t2
  | None => ¬ typeConflict ms fams
  end.
Proof.
  pose proof (conflictInFamilies_spec (rangeMap fams) (rangeMap (metricGroups ms))) as Hs.
  destruct (conflictInFamilies _ _) as [err|].
  - destruct Hs as (k & f2 & gk & group & f1 & Hk & Hg & Hf1 & Ht & ->).
    apply rangeMap_elem_of in Hk, Hg. split; [|by eauto 10].
    by exists k, f2, gk, group, f1.
  - intros (k & f2 & gk & group & f1 & Hk & Hg & Hf1 & Ht). apply Ht.
    apply rangeMap_elem_of in Hk, Hg. by eapply Hs.
Qed.

Lemma TimestampsPresent_spec (fams : gmap string MetricFamily) :
  TimestampsPresent fams = true ↔ carriesTimestamp fams.
Proof.
  unfold TimestampsPresent, carriesTimestamp. rewrite existsb_exists. split.
  - intros ([k mf] & Hin & Hex). apply existsb_exists in Hex as (m & Hm & Ht).
    apply list_elem_of_In, rangeMap_elem_of in Hin. apply bool_decide_eq_true in Ht.
    exists k, mf, m. by rewrite list_elem_of_In.
  - intros (k & mf & m & Hk & Hm & Ht). exists (k, mf). split.
    + by apply list_elem_of_In, rangeMap_elem_of.
    + apply existsb_exists. exists m. split; [by apply list_elem_of_In|].
      by apply bool_decide_eq_true.
Qed.

Lemma validate_conflict ms wr fams :
  wrMetricFamilies wr = Some fams → typeConflict ms fams →
  ∃ n t1 t2, t1 ≠ t2 ∧ validateConsistency ms wr = Ok (Some (TypeConflict n t1 t2), wr).
Proof.
  intros Hf Hc. unfold validateConsistency. rewrite Hf.
  pose proof (conflict_found ms fams) as Hfound.
  destruct (conflictInFamilies _ _) as [err|]; [|done].
  destruct Hfound as (_ & n & t1 & t2 & -> & Hne). by exists n, t1, t2.
Qed.

Lemma validate_timestamp ms wr fams :
  wrMetricFamilies wr = Some fams → ¬ typeConflict ms fams → carriesTimestamp fams →
  validateConsistency ms wr = Ok (Some TimestampForbidden, wr).
Proof.
  intros Hf Hc Ht. unfold validateConsistency. rewrite Hf.
  pose proof (conflict_found ms fams) as Hfound.
  destruct (conflictInFamilies _ _) as [err|]; [by destruct Hfound|].
  apply TimestampsPresent_spec in Ht. by rewrite Ht.
Qed.

(** Past the two checks the validator works on the sanitized request. *)
Lemma validate_sanitizes ms wr fams :
  wrMetricFamilies wr = Some fams → ¬ typeConflict ms fams → ¬ carriesTimestamp fams →
  validateConsistency ms wr =
    match wrDone wr with
    | None => Ok (None, sanitizedRequest wr fams)
    | Some _ =>
        '(testMs, wr') ← processWriteRequestShared (mkMetricStorage (GetMetricGroups ms))
                           (sanitizedRequest wr fams);
        match Gather (GetMetricFamilies testMs) with
        | Some msg => Ok (Some (InconsistentOnGather msg), wr')
        | None => Ok (None, wr')
        end
    end.
Proof.
  intros Hf Hc Ht. unfold validateConsistency. rewrite Hf.
  pose proof (conflict_found ms fams) as Hfound.
  destruct (conflictInFamilies _ _) as [err|]; [by destruct Hfound|].
  rewrite <-TimestampsPresent_spec in Ht. apply not_true_is_false in Ht.
  rewrite Ht. cbn [wrDone setMetricFamilies]. by destruct (wrDone wr).
Qed.

(** Whatever the validator returns past the two checks, the request comes
    back sanitized, short of the bucket counts that the test run may have
    changed, and the error is the gatherer's, if there is one. *)
Lemma validate_past_checks ms wr fams err wr' :
  wrMetricFamilies wr = Some fams → ¬ typeConflict ms fams → ¬ carriesTimestamp fams →
  validateConsistency ms wr = Ok (err, wr') →
  (∃ fams', wr' = setMetricFamilies wr fams'
            ∧ forgetCounts <$> fams'
              = forgetCounts <$> ((λ mf, SanitizeLabels mf (wrLabels wr)) <$> fams))
  ∧ (err = None ∨ ∃ msg, err = Some (InconsistentOnGather msg)).
Proof.
  intros Hf Hc Ht. rewrite (validate_sanitizes ms wr fams) by done.
  destruct (wrDone wr).
  - destruct (processWriteRequestShared _ _) as [[testMs wr2]|] eqn:Hp; [|done].
    apply processWriteRequestShared_request in Hp. cbn in Hp.
    destruct Hp as (fams' & -> & Heq). cbn.
    destruct (Gather _) as [msg|]; intros [= <- <-]; (split; [by exists fams'|eauto]).
  - intros [= <- <-]. split; [|by left]. by eexists.
Qed.




(** A request that the validator refuses leaves the store as it was. *)
Lemma loopBody_refused ms wr err wr' :
  validateConsistency ms wr = Ok (Some err, wr') → wStorage (loopBody ms wr) = ms.
Proof. intros Hv. unfold loopBody. rewrite Hv. by destruct (wrDone wr'). Qed.

(** C1.  When the store holds a family named [F] (a group keeps its
    families under their names) and a request that is not a delete carries a
    family named [F] of another type, the validator returns a type-conflict
    error, the worker does not apply the request, and the store is what it
    was: a scrape after the request returns what a scrape before it
    returned. *)
Theorem type_conflict_rejected (ms : MetricStorage) (wr : WriteRequest)
    (fams : gmap string MetricFamily) (gk k F : string) (group : MetricGroup)
    (f1 f2 : MetricFamily) :
  metricGroups ms !! gk = Some group →
  mgMetricFamilies group !! F = Some f1 →
  wrMetricFamilies wr = Some fams →
  fams !! k = Some f2 → fName f2 = F → fType f2 ≠ fType f1 →
  (∃ n t1 t2, t1 ≠ t2
     ∧ validateConsistency ms wr = Ok (Some (TypeConflict n t1 t2), wr))
  ∧ wStorage (loopBody ms wr) = ms
  ∧ GetMetricFamilies (wStorage (loopBody ms wr)) = GetMetricFamilies ms.
Proof.
  intros Hg Hf1 Hfams Hf2 HF Ht. subst F.
  assert (Hc : typeConflict ms fams) by (exists k, f2, gk, group, f1; eauto).
  destruct (validate_conflict ms wr fams Hfams Hc) as (n & t1 & t2 & Hne & Hv).
  assert (Hs : wStorage (loopBody ms wr) = ms) by by eapply loopBody_refused.
  split; [by exists n, t1, t2|]. split; [done|]. by rewrite Hs.
Qed.

(** C3, amended.  A request that is not a delete and in which a metric
    carries a timestamp is refused by the validator and is not applied to
    the store, with or without a done channel: the error is
    [TimestampForbidden], unless a family of the request conflicts in type
    with a stored family, in which case it is the type conflict, which is
    checked first. *)
Theorem timestamp_rejected (ms : MetricStorage) (wr : WriteRequest)
    (fams : gmap string MetricFamily) :
  wrMetricFamilies wr = Some fams → carriesTimestamp fams →
  (∃ err, validateConsistency ms wr = Ok (Some err, wr)
     ∧ (¬ typeConflict ms fams → err = TimestampForbidden)
     ∧ (typeConflict ms fams → ∃ n t1 t2, err = TypeConflict n t1 t2))
  ∧ wStorage (loopBody ms wr) = ms.
Proof.
  intros Hfams Hts.
  assert (Hv : ∃ err, validateConsistency ms wr = Ok (Some err, wr)
     ∧ (¬ typeConflict ms fams → err = TimestampForbidden)
     ∧ (typeConflict ms fams → ∃ n t1 t2, err = TypeConflict n t1 t2)).
  { pose proof (conflict_found ms fams) as Hfound.
    destruct (conflictInFamilies _ _) as [e|] eqn:Hcf.
    - destruct Hfound as [Hc _].
      destruct (validate_conflict ms wr fams Hfams Hc) as (n & t1 & t2 & _ & Hv).
      exists (TypeConflict n t1 t2). split; [done|]. split; [done|]. by exists n, t1, t2.
    - exists TimestampForbidden. split; [by apply (validate_timestamp ms wr fams)|].
      split; [done|]. intros Hc. by destruct Hfound. }
  split; [done|]. destruct Hv as (err & Hv & _). by eapply loopBody_refused.
Qed.

Lemma forgetCounts_labels (f f' : MetricFamily) :
  forgetCounts f' = forgetCounts f → mLabel <$> fMetric f' = mLabel <$> fMetric f.
Proof.
  unfold forgetCounts. intros [= _ _ _ Heq].
  apply (f_equal (fmap mLabel)) in Heq. rewrite <- !list_fmap_compose in Heq.
  rewrite (list_fmap_ext (mLabel ∘ forgetCountsMetric) mLabel (fMetric f'))
    in Heq by (intros i m _; unfold forgetCountsMetric; cbn; by destruct (mHistogram m)).
  by rewrite (list_fmap_ext (mLabel ∘ forgetCountsMetric) mLabel (fMetric f))
    in Heq by (intros i m _; unfold forgetCountsMetric; cbn; by destruct (mHistogram m)).
Qed.

(** C6, as the code behaves.  The validator does not sanitize the request
    regardless of the outcome.  For a request that is not a delete: when it
    conflicts in type with the store or carries a timestamp, the validator
    returns its error before it sanitizes, and the request is as it was.
    Otherwise, whenever the validator returns, with success or with
    [InconsistentOnGather], the request is the sanitized request short of
    the cumulative counts of histogram buckets, which the test run on the
    copy of the store may have changed: every family of the request has the
    label pairs of the family sanitized against the grouping labels of the
    request.  Without a done channel there is no test run and the request is
    the sanitized request, returned with success. *)
Theorem validate_sanitizes_past_checks (ms : MetricStorage) (wr : WriteRequest)
    (fams : gmap string MetricFamily) :
  wrMetricFamilies wr = Some fams →
  (typeConflict ms fams ∨ carriesTimestamp fams →
     ∃ err, validateConsistency ms wr = Ok (Some err, wr))
  ∧ (¬ typeConflict ms fams → ¬ carriesTimestamp fams →
       (∀ err wr', validateConsistency ms wr = Ok (err, wr') →
          (∃ fams', wr' = setMetricFamilies wr fams'
             ∧ forgetCounts <$> fams'
               = forgetCounts <$> ((λ mf, SanitizeLabels mf (wrLabels wr)) <$> fams)
             ∧ ∀ k f', fams' !! k = Some f' →
                 ∃ f, fams !! k = Some f
                      ∧ mLabel <$> fMetric f'
                        = mLabel <$> fMetric (SanitizeLabels f (wrLabels wr)))
          ∧ (err = None ∨ ∃ msg, err = Some (InconsistentOnGather msg)))
       ∧ (wrDone wr = None →
            validateConsistency ms wr = Ok (None, sanitizedRequest wr fams))).
Proof.
  intros Hfams. split.
  - intros Hbad. destruct (conflictInFamilies (rangeMap fams) (rangeMap (metricGroups ms)))
      as [e|] eqn:Hcf; pose proof (conflict_found ms fams) as Hfound; rewrite Hcf in Hfound.
    + destruct Hfound as [Hc _].
      destruct (validate_conflict ms wr fams Hfams Hc) as (n & t1 & t2 & _ & Hv). eauto.
    + destruct Hbad as [Hc|Hts]; [done|].
      exists TimestampForbidden. by apply (validate_timestamp ms wr fams).
  - intros Hc Hts. split.
    + intros err wr' Hv.
      destruct (validate_past_checks ms wr fams err wr' Hfams Hc Hts Hv)
        as [(fams' & -> & Heq) Herr].
      split; [|done]. exists fams'. split; [done|]. split; [done|].
      intros k f' Hf'.
      apply (f_equal (λ m : gmap string MetricFamily, m !! k)) in Heq.
      rewrite !lookup_fmap, Hf' in Heq.
      destruct (fams !! k) as [f|]; [|done].
      exists f. split; [done|]. apply forgetCounts_labels.
      cbn in Heq. congruence.
    + intros Hdone. rewrite (validate_sanitizes ms wr fams) by done.
      by rewrite Hdone.
Qed.

(** C5, amended.  When the request has a done channel and the validator
    refuses it, the worker sends the validator's error on the channel, once,
    and closes the channel; when the validator accepts it and the request is
    applied, the worker sends nothing and closes the channel.  When the
    request has no done channel and the validator accepts it, the worker
    performs no channel operation. *)
Theorem loop_done_channel (ms : MetricStorage) (wr : WriteRequest) :
  (∀ ch, wrDone wr = Some ch →
     (∀ err wr', validateConsistency ms wr = Ok (Some err, wr') →
        loopBody ms wr = mkWorker ms [SendOp (Some ch) (Some err); CloseOp ch] Running)
     ∧ (∀ wr' ms', validateConsistency ms wr = Ok (None, wr') →
          processWriteRequest ms wr' = Ok ms' →
          loopBody ms wr = mkWorker ms' [CloseOp ch] Running))
  ∧ (wrDone wr = None →
       ∀ wr' ms', validateConsistency ms wr = Ok (None, wr') →
         processWriteRequest ms wr' = Ok ms' →
         loopBody ms wr = mkWorker ms' [] Running).
Proof.
  assert (Hdone : ∀ e wr', validateConsistency ms wr = Ok (e, wr') → wrDone wr' = wrDone wr).
  { intros e wr'. unfold validateConsistency.
    destruct (wrMetricFamilies wr) as [fams|]; [|by intros [= <- <-]].
    destruct (conflictInFamilies _ _); [by intros [= <- <-]|].
    destruct (TimestampsPresent fams); [by intros [= <- <-]|].
    cbn [wrDone setMetricFamilies].
    destruct (wrDone wr) eqn:Hd; [|intros [= <- <-]; cbn; congruence].
    destruct (processWriteRequestShared _ _) as [[testMs wr2]|] eqn:Hp; [|done].
    apply processWriteRequestShared_request in Hp. cbn in Hp.
    destruct Hp as (fams' & -> & _). cbn.
    destruct (Gather _); intros [= <- <-]; cbn; congruence. }
  split.
  - intros ch Hch. split.
    + intros err wr' Hv. unfold loopBody. rewrite Hv.
      by rewrite (Hdone _ _ Hv), Hch.
    + intros wr' ms' Hv Hp. unfold loopBody, closeDone. rewrite Hv, Hp.
      by rewrite (Hdone _ _ Hv), Hch.
  - intros Hch wr' ms' Hv Hp. unfold loopBody, closeDone. rewrite Hv, Hp.
    by rewrite (Hdone _ _ Hv), Hch.
Qed.
(** The remaining case of the worker: a request without a done channel that
    the validator refuses.  The worker sends the error on the nil channel,
    where a send blocks for good; the request is not applied. *)
Lemma loop_blocks_without_done ms wr err wr' :
  wrDone wr = None → validateConsistency ms wr = Ok (Some err, wr') →
  loopBody ms wr = mkWorker ms [SendOp None (Some err)] Blocked.
Proof.
  intros Hd Hv. unfold loopBody. rewrite Hv.
  assert (wrDone wr' = None) as ->; [|done].
  revert Hv. unfold validateConsistency.
  destruct (wrMetricFamilies wr) as [fams|]; [|by intros [= <-]].
  destruct (conflictInFamilies _ _); [by intros [= _ <-]|].
  destruct (TimestampsPresent fams); [by intros [= _ <-]|].
  cbn [wrDone setMetricFamilies]. rewrite Hd. by intros [= <-].
Qed.
End validator_facts.

(** ** Two pushes of a counter *)

Section counter_scenario.
Context `{GoEnv}.







End counter_scenario.

(** ** The grouping key is not injective *)

Section conflation.
Context `{GoEnv}.

Lemma oneLabel_key :
  GroupingKeyFor oneLabel
  = String "a" (String SeparatorByte spelled).
Proof. rewrite GroupingKeyFor_eq_spec. vm_compute. reflexivity. Qed.

Lemma twoLabels_key :
  GroupingKeyFor twoLabels
  = String "a" (String SeparatorByte spelled).
Proof. rewrite GroupingKeyFor_eq_spec. vm_compute. reflexivity. Qed.

Lemma pairs_key :
  GroupingKeyForLabelPair onePair = GroupingKeyForLabelPair twoPairs.
Proof.
  unfold GroupingKeyForLabelPair. rewrite !GroupingKeyFor_eq_spec.
  vm_compute. reflexivity.
Qed.

Lemma maps_differ : oneLabel ≠ twoLabels ∧ labelMap onePair ≠ labelMap twoPairs.
Proof.
  split; intros Heq; apply (f_equal (lookup "b")) in Heq; vm_compute in Heq;
    discriminate Heq.
Qed.
Lemma merge_conflated (v1 v2 : float) :
  mergeFamilies (counterFamily "foo" "" onePair v1) (counterFamily "foo" "" twoPairs v2)
  = Ok (inr (counterFamily "foo" "" onePair (v1 + v2)%float)).
Proof.
  unfold mergeFamilies, counterFamily. cbn [fType fMetric fName].
  rewrite bool_decide_false by (by intros []).
  unfold metricIndex. cbn [indexMetrics mergeFamilyMetrics mLabel counterMetric].
  rewrite <-pairs_key, lookup_insert_eq. done.
Qed.

(** C10.  The grouping key is not injective.  The label map [{a = x SEP b
    SEP y}], whose one value spells out a name and value sequence, and the
    label map [{a = x, b = y}] differ and have the same grouping key.  A push
    under the first followed by a push under the second therefore ends in
    one group of the store, under the labels of the first.  The label
    pairs of the two metrics of these pushes differ as label sets and have
    the same key as well, so [mergeFamilies] merges the two metrics into
    one: the counters 1 and 2 end as one counter 3. *)
Theorem grouping_key_not_injective :
  oneLabel ≠ twoLabels
  ∧ GroupingKeyFor oneLabel = GroupingKeyFor twoLabels
  ∧ labelMap onePair ≠ labelMap twoPairs
  ∧ GroupingKeyForLabelPair onePair = GroupingKeyForLabelPair twoPairs
  ∧ mergeFamilies (counterFamily "foo" "" onePair 1) (counterFamily "foo" "" twoPairs 2)
    = Ok (inr (counterFamily "foo" "" onePair 3))
  ∧ (ms1 ← processWriteRequest NewSimpleMetricStorage
             (mkWriteRequest oneLabel 0
                (Some {["foo" := counterFamily "foo" "" onePair 1]}) false None);
     processWriteRequest ms1
       (mkWriteRequest twoLabels 0
          (Some {["foo" := counterFamily "foo" "" twoPairs 2]}) false None))
    = Ok (mkMetricStorage
            {[GroupingKeyFor oneLabel :=
                mkMetricGroup oneLabel {["foo" := counterFamily "foo" "" onePair 3]}]}).
Proof.
  destruct maps_differ as [Hm1 Hm2].
  split; [done|]. split; [by rewrite oneLabel_key, twoLabels_key|].
  split; [done|]. split; [apply pairs_key|]. split; [apply (merge_conflated 1 2)|].
  unfold processWriteRequest at 2.
  cbn [wrLabels wrMetricFamilies wrReplace metricGroups NewSimpleMetricStorage].
  rewrite lookup_empty, insert_empty. cbn [mbind outcome_bind].
  unfold processWriteRequest. cbn [wrLabels wrMetricFamilies wrReplace metricGroups].
  rewrite twoLabels_key, <-oneLabel_key, lookup_singleton_eq.
  unfold mergeGroups. cbn [mgMetricFamilies mgLabels].
  rewrite rangeMap_singleton. cbn [mergeGroupFamilies]. rewrite lookup_singleton_eq.
  rewrite (merge_conflated 1 2). cbn.
  by rewrite !insert_singleton_eq.
Qed.
End conflation.

(** ** The job name of the base64 routes *)

Lemma job_label_of_push base64 unchecked replace now errCh r wr :
  Push base64 unchecked replace now errCh r = Submit wr →
  wrLabels wr !! "job" = Some (rJob r).
Proof.
  unfold Push. destruct (decodeJobFails _ _); [done|].
  destruct (String.eqb _ _); [done|]. destruct (SplitLabels _ _); [done|].
  destruct (rBody r); [done|].
  destruct unchecked; intros [= <-]; cbn; apply lookup_insert_eq.
Qed.

Lemma job_label_of_delete base64 now r wr :
  Delete base64 now r = Submit wr → wrLabels wr !! "job" = Some (rJob r).
Proof.
  unfold Delete. destruct (decodeJobFails _ _); [done|].
  destruct (String.eqb _ _); [done|]. destruct (SplitLabels _ _); [done|].
  intros [= <-]; cbn; apply lookup_insert_eq.
Qed.

(** C4, as the code behaves.  The job parameter [dA] is the base64 encoding
    of [t].  The base64 variants of the push and delete handlers submit, for
    it, a write request whose grouping label [job] is [dA], the parameter as
    it came, and not [t].  In general the label is the parameter as it came
    whenever a request is submitted.  (When decoding fails, the handlers
    answer 400 and submit nothing.) *)
Theorem base64_job_not_decoded :
  DecodeBase64 "dA" = Some "t"
  ∧ (∀ unchecked replace now errCh body,
       ∃ wr, Push true unchecked replace now errCh (mkRequest "dA" "" (inr body))
             = Submit wr
             ∧ wrLabels wr !! "job" = Some "dA")
  ∧ (∀ now body, ∃ wr, Delete true now (mkRequest "dA" "" body) = Submit wr
                       ∧ wrLabels wr !! "job" = Some "dA")
  ∧ (∀ unchecked replace now errCh r wr,
       Push true unchecked replace now errCh r = Submit wr →
       wrLabels wr !! "job" = Some (rJob r))
  ∧ (∀ now r wr, Delete true now r = Submit wr → wrLabels wr !! "job" = Some (rJob r))
  ∧ (∀ unchecked replace now errCh r,
       DecodeBase64 (rJob r) = None →
       Push true unchecked replace now errCh r = Reply400 InvalidJobEncoding
       ∧ Delete true now r = Reply400 InvalidJobEncoding).
Proof.
  split; [reflexivity|]. split; [|split; [|split; [|split]]].
  - intros unchecked replace now errCh body.
    destruct unchecked; eexists; (split; [reflexivity|reflexivity]).
  - intros now body. eexists. split; reflexivity.
  - intros *. apply job_label_of_push.
  - intros *. apply job_label_of_delete.
  - intros unchecked replace now errCh r Hd. unfold Push, Delete, decodeJobFails.
    by rewrite Hd.
Qed.

(** * Concrete runs

    The statements above at concrete inputs, in the concrete environment
    [goStd]. *)

(** The counter [foo] pushed onto the stored gauge [foo]. *)
Lemma type_conflict_rejected_witness :
  (∃ n t1 t2, t1 ≠ t2
     ∧ @validateConsistency goStd gaugeStore (pushCounter None)
       = Ok (Some (TypeConflict n t1 t2), pushCounter None))
  ∧ wStorage (@loopBody goStd gaugeStore (pushCounter None)) = gaugeStore
  ∧ @GetMetricFamilies goStd (wStorage (@loopBody goStd gaugeStore (pushCounter None)))
    = @GetMetricFamilies goStd gaugeStore.
Proof.
  apply (@type_conflict_rejected goStd gaugeStore (pushCounter None)
           {["foo" := counterFoo]} (@GroupingKeyFor goStd jobT) "foo" "foo"
           (mkMetricGroup jobT {["foo" := gaugeFoo]}) gaugeFoo counterFoo).
  - vm_compute. reflexivity.
  - vm_compute. reflexivity.
  - reflexivity.
  - vm_compute. reflexivity.
  - reflexivity.
  - discriminate.
Defined.

(** C3, as stated, fails: a push that carries a timestamp and whose family
    conflicts in type with the store is refused with the type conflict, not
    with [TimestampForbidden]. *)
Lemma timestamp_error_counterexample :
  wrMetricFamilies (pushStamped None) = Some {["foo" := stampedFoo]}
  ∧ @TimestampsPresent goStd {["foo" := stampedFoo]} = true
  ∧ @validateConsistency goStd gaugeStore (pushStamped None)
    = Ok (Some (TypeConflict "foo" GAUGE COUNTER), pushStamped None)
  ∧ ¬ ∃ wr', @validateConsistency goStd gaugeStore (pushStamped None)
             = Ok (Some TimestampForbidden, wr').
Proof.
  split; [reflexivity|]. split; [vm_compute; reflexivity|].
  assert (Hv : @validateConsistency goStd gaugeStore (pushStamped None)
               = Ok (Some (TypeConflict "foo" GAUGE COUNTER), pushStamped None))
    by (vm_compute; reflexivity).
  split; [exact Hv|]. intros [wr' Hwr']. rewrite Hv in Hwr'. discriminate Hwr'.
Qed.

Lemma stamped_carries : carriesTimestamp {["foo" := stampedFoo]}.
Proof.
  exists "foo", stampedFoo, stampedMetric. split; [vm_compute; reflexivity|].
  split; [left|]. by exists 0.
Defined.

(** The stamped push on the empty store, without a done channel. *)
Lemma timestamp_rejected_witness :
  (∃ err, @validateConsistency goStd NewSimpleMetricStorage (pushStamped None)
          = Ok (Some err, pushStamped None)
     ∧ (¬ typeConflict NewSimpleMetricStorage {["foo" := stampedFoo]}
        → err = TimestampForbidden)
     ∧ (typeConflict NewSimpleMetricStorage {["foo" := stampedFoo]}
        → ∃ n t1 t2, err = TypeConflict n t1 t2))
  ∧ wStorage (@loopBody goStd NewSimpleMetricStorage (pushStamped None))
    = NewSimpleMetricStorage.
Proof.
  apply (@timestamp_rejected goStd NewSimpleMetricStorage (pushStamped None)
           {["foo" := stampedFoo]}).
  - reflexivity.
  - exact stamped_carries.
Defined.

(** C5, as stated, fails: for a request with a done channel that the
    validator accepts, the worker sends no value on the channel, it only
    closes it.  So it is for a delete, which the validator accepts without
    looking at it, and for a push of a counter onto the empty store, when
    the gatherer accepts it. *)
Lemma done_send_counterexample :
  @validateConsistency goStd NewSimpleMetricStorage (deleteJobT (Some 7%nat))
  = Ok (None, deleteJobT (Some 7%nat))
  ∧ @loopBody goStd NewSimpleMetricStorage (deleteJobT (Some 7%nat))
    = mkWorker NewSimpleMetricStorage [CloseOp 7%nat] Running
  ∧ (¬ ∃ v, wTrace (@loopBody goStd NewSimpleMetricStorage (deleteJobT (Some 7%nat)))
            = [SendOp (Some 7%nat) v; CloseOp 7%nat])
  ∧ wTrace (@loopBody goStd NewSimpleMetricStorage (pushCounter (Some 7%nat)))
    = [CloseOp 7%nat].
Proof.
  split; [reflexivity|].
  assert (Hl : @loopBody goStd NewSimpleMetricStorage (deleteJobT (Some 7%nat))
               = mkWorker NewSimpleMetricStorage [CloseOp 7%nat] Running)
    by (vm_compute; reflexivity).
  split; [exact Hl|]. split; [|vm_compute; reflexivity].
  intros [v Hv]. rewrite Hl in Hv. discriminate Hv.
Qed.

(** The stamped push with the done channel 7: one send, of the error, then
    the close. *)
Lemma loop_done_channel_witness :
  @loopBody goStd NewSimpleMetricStorage (pushStamped (Some 7%nat))
  = mkWorker NewSimpleMetricStorage
      [SendOp (Some 7%nat) (Some TimestampForbidden); CloseOp 7%nat] Running.
Proof.
  apply (proj1 (proj1 (@loop_done_channel goStd NewSimpleMetricStorage
                         (pushStamped (Some 7%nat))) 7%nat eq_refl)
           TimestampForbidden (pushStamped (Some 7%nat))).
  vm_compute. reflexivity.
Defined.

(** The test run changes the request.  The push [pushHistograms] onto
    [histogramStore] is accepted.  Without a done channel it comes back
    sanitized, and the worker leaves the bucket of bound 40 with the count
    12, the sum of 5 and 7.  With a done channel the test run appends the
    first bucket of the request to the copy of the stored metric and adds
    the second into it: the request comes back with 12 in place of 5, and
    the worker, merging it into the store, leaves the count 19. *)
Lemma test_run_changes_request :
  @validateConsistency goStd histogramStore (pushHistograms None)
  = Ok (None, setMetricFamilies (pushHistograms None) {["h" := pushedHistograms 5]})
  ∧ @sanitizedRequest goStd (pushHistograms (Some 7%nat))
      {["h" := mkMetricFamily "h" "" HISTOGRAM
                 [histogramMetric [mkLabelPair "job" "x"] 5 5 [mkBucket 5 40];
                  histogramMetric [mkLabelPair "job" "y"] 7 7 [mkBucket 7 40]]]}
    = setMetricFamilies (pushHistograms (Some 7%nat)) {["h" := pushedHistograms 5]}
  ∧ @validateConsistency goStd histogramStore (pushHistograms (Some 7%nat))
    = Ok (None, setMetricFamilies (pushHistograms (Some 7%nat))
                  {["h" := pushedHistograms 12]})
  ∧ @GetMetricFamilies goStd
      (wStorage (@loopBody goStd histogramStore (pushHistograms None)))
    = [storedHistogram 12]
  ∧ @GetMetricFamilies goStd
      (wStorage (@loopBody goStd histogramStore (pushHistograms (Some 7%nat))))
    = [storedHistogram 19].
Proof. repeat split; vm_compute; reflexivity. Qed.

(** C6, as stated, fails: the stamped push is refused with
    [TimestampForbidden] and comes back as it was; its metric has no labels,
    so it is not sanitized. *)
Lemma sanitize_always_counterexample :
  @validateConsistency goStd NewSimpleMetricStorage (pushStamped None)
  = Ok (Some TimestampForbidden, pushStamped None)
  ∧ wrMetricFamilies (pushStamped None) = Some {["foo" := stampedFoo]}
  ∧ @SanitizeLabels goStd stampedFoo jobT ≠ stampedFoo
  ∧ ¬ sanitized jobT (mLabel stampedMetric).
Proof.
  split; [vm_compute; reflexivity|]. split; [reflexivity|]. split.
  - intros Heq. vm_compute in Heq. discriminate Heq.
  - intros (_ & _ & Hinst & _). cbn in Hinst. by apply elem_of_nil in Hinst.
Qed.

Lemma counterFoo_clean :
  ¬ typeConflict NewSimpleMetricStorage {["foo" := counterFoo]}
  ∧ ¬ carriesTimestamp {["foo" := counterFoo]}.
Proof.
  split.
  - intros (k & f2 & gk & group & f1 & _ & Hg & _). cbn in Hg.
    by rewrite lookup_empty in Hg.
  - intros (k & mf & m & Hk & Hm & Ht).
    apply lookup_singleton_Some in Hk as [_ <-]. cbn in Hm.
    apply list_elem_of_singleton in Hm. subst m. cbn in Ht. by destruct Ht.
Defined.

(** The push of the counter on the empty store, without a done channel. *)
Lemma validate_sanitizes_past_checks_witness :
  @validateConsistency goStd NewSimpleMetricStorage (pushCounter None)
  = Ok (None, @sanitizedRequest goStd (pushCounter None) {["foo" := counterFoo]}).
Proof.
  apply (proj2 (proj2 (@validate_sanitizes_past_checks goStd NewSimpleMetricStorage
                         (pushCounter None) {["foo" := counterFoo]} eq_refl)
                  (proj1 counterFoo_clean) (proj2 counterFoo_clean))).
  reflexivity.
Defined.


(** A family whose metric has the labels [z] and [job], sanitized against
    [{job="t"}]. *)
Lemma SanitizeLabels_idempotent_witness :
  let f := mkMetricFamily "foo" "" GAUGE
             [mkMetric [mkLabelPair "z" "1"; mkLabelPair "job" "x"]
                (Some 1%float) None None None None None] in
  @SanitizeLabels goStd (@SanitizeLabels goStd f jobT) jobT = @SanitizeLabels goStd f jobT
  ∧ Forall (λ m, sanitized jobT (mLabel m)) (fMetric (@SanitizeLabels goStd f jobT)).
Proof.
  intros f. apply (@SanitizeLabels_idempotent goStd f jobT).
  repeat constructor; compute_done.
Defined.

(** ** The tests of the repository

    The unit tests of [utils] and [storage], run on the embedding. *)

Example TestDecodeBase64 : DecodeBase64 "dGVzdA" = Some "test".
Proof. reflexivity. Qed.

Example TestSplitLabels :
  (∃ comp, SplitLabels "key0/val0/key1/val1" "" = inr comp ∧ size comp = 2%nat)
  ∧ SplitLabels "key0/val0/key1" "" = inl (OddComponents "key0/val0/key1")
  ∧ SplitLabels "__key0/val0" "" = inl (ImproperLabelName "__key0")
  ∧ SplitLabels "key0@base64/dmFsMA" "@base64" = inr {["key0" := "val0"]}.
Proof.
  split; [eexists; split; [reflexivity|by vm_compute]|]. repeat split; by vm_compute.
Qed.

Example TestGroupingKeyFor :
  @GroupingKeyFor goStd ∅ = ""
  ∧ length (splitSlash
              (String.string_of_list_ascii
                 ((λ c, if Ascii.eqb c "255" then "/" else c)%char
                    <$> String.list_ascii_of_string
                          (@GroupingKeyFor goStd {["key0" := "value0"; "key1" := "value1"]}))))
    = 4%nat.
Proof. split; by vm_compute. Qed.

Example TestSanitizeLabels :
  lpName <$> mLabel
    (default (mkMetric [] None None None None None None)
       (head (fMetric
          (@SanitizeLabels goStd
             (mkMetricFamily "name" "" UNTYPED [mkMetric [] None None None None None None])
             {["gk0" := "value0"; "gk1" := "value1"]}))))
  = ["gk0"; "gk1"; "instance"].
Proof. by vm_compute. Qed.

Example TestTimestampsPresent :
  @TimestampsPresent goStd
    {["0" := mkMetricFamily "" "" UNTYPED [mkMetric [] None None None None None None]]}
  = false
  ∧ @TimestampsPresent goStd
      {["0" := mkMetricFamily "" "" UNTYPED [mkMetric [] None None None None None None];
        "1" := mkMetricFamily "" "" UNTYPED
                 [mkMetric [] None None None None None (Some 14)]]}
    = true.
Proof. split; by vm_compute. Qed.

Example TestInsertingWithDifferentValues :
  let gauge v := mkMetricFamily "f1Name" "" GAUGE
                   [mkMetric [] (Some v) None None None None None] in
  let wr v := mkWriteRequest ∅ 0 (Some {["f1Name" := gauge v]}) false None in
  (ms1 ← @processWriteRequest goStd NewSimpleMetricStorage (wr (-13)%float);
   ms2 ← @processWriteRequest goStd ms1 (wr 4%float);
   Ok (@GetMetricFamilies goStd ms1, @GetMetricFamilies goStd ms2))
  = Ok ([gauge (-13)%float], [gauge 4%float]).
Proof. by vm_compute. Qed.

Example TestMergingHistogram :
  let hist c s bs := mkMetricFamily "f1Name" "" HISTOGRAM
                       [mkMetric [] None None None None (Some (mkHistogram c s bs)) None] in
  let wr f := mkWriteRequest ∅ 0 (Some {["f1Name" := f]}) false None in
  (ms1 ← @processWriteRequest goStd NewSimpleMetricStorage
           (wr (hist 2 13%float [mkBucket 13 20]));
   ms2 ← @processWriteRequest goStd ms1
           (wr (hist 3 40%float [mkBucket 13 20; mkBucket 27 40]));
   Ok (@GetMetricFamilies goStd ms2))
  = Ok [hist 5 53%float [mkBucket 26 20; mkBucket 27 40]].
Proof. by vm_compute. Qed.

Example TestInsertingDuplicateSameTypeDifferentLabels :
  let gauge k := mkMetricFamily "f1Name" "" GAUGE
                   [mkMetric [mkLabelPair k "val0"] (Some 0%float) None None None None None] in
  let wr k := mkWriteRequest ∅ 0 (Some {["f1Name" := gauge k]}) false None in
  (ms1 ← @processWriteRequest goStd NewSimpleMetricStorage (wr "key0");
   ms2 ← @processWriteRequest goStd ms1 (wr "key1");
   Ok (size (metricGroups ms2), length (@GetMetricFamilies goStd ms2),
       length <$> (fMetric <$> @GetMetricFamilies goStd ms2)))
  = Ok (1%nat, 1%nat, [2%nat]).
Proof. by vm_compute. Qed.

Example TestDelete :
  let labels : gmap string string := {["job" := "test0"]} in
  let gauge := mkMetricFamily "f1Name" "" GAUGE
                 [mkMetric [] (Some (-13)%float) None None None None None] in
  (ms1 ← @processWriteRequest goStd NewSimpleMetricStorage
           (mkWriteRequest labels 0 (Some {["f1Name" := gauge]}) false None);
   ms2 ← @processWriteRequest goStd ms1 (mkWriteRequest labels 0 None false None);
   Ok (length (@GetMetricFamilies goStd ms2)))
  = Ok 0%nat.
Proof. by vm_compute. Qed.
